(** * Beli Buzz: the snapshot contract, the map client and the pipeline policies

    The development has two halves.

    - The rendering client ([App], the component of [frontend/src/App.tsx],
      and [RestaurantCard]) is embedded from its TypeScript source: the
      declared types as schemas, [fetchData] as a computation in a small
      state-and-exception monad, the derived value [selected] and the tree
      the component renders.
    - The ingestion pipeline (identity resolver, geocode cache, buzz score,
      publisher) is embedded from the design document, each definition saying
      so in its comment. *)

From Stdlib Require Import Ascii String QArith Qround Qabs DecimalString.
From Stdlib Require Import Lqa Sorted Permutation.
From stdpp Require Import gmap strings list fin_maps.

Set Warnings "-register-all".

Local Open Scope string_scope.

(** ** JavaScript numbers *)

Module Num.

(** A JavaScript [number].  A finite double is carried by the rational it
    denotes; the two infinities and NaN are kept apart because subtraction
    produces them ([Infinity - Infinity] is NaN).  The client only looks at
    the sign of a difference, and IEEE-754 rounding never changes the sign of
    the difference of two finite doubles. *)
Inductive number : Type :=
  | NaN
  | NegInf
  | Fin (q : Q)
  | PosInf.

(** [a - b]. *)
Definition sub (a b : number) : number :=
  match a, b with
  | NaN, _ => NaN
  | _, NaN => NaN
  | Fin x, Fin y => Fin (x - y)
  | PosInf, PosInf => NaN
  | NegInf, NegInf => NaN
  | PosInf, _ => PosInf
  | NegInf, _ => NegInf
  | Fin _, PosInf => NegInf
  | Fin _, NegInf => PosInf
  end.

(** [a + b].  The sum of two finite numbers is the exact one: it is the
    sum JavaScript computes whenever that is a double, as for integers up to
    [2^53], and it leaves out the rounding of the other cases. *)
Definition add (a b : number) : number :=
  match a, b with
  | NaN, _ => NaN
  | _, NaN => NaN
  | Fin x, Fin y => Fin (x + y)
  | PosInf, NegInf => NaN
  | NegInf, PosInf => NaN
  | PosInf, _ => PosInf
  | NegInf, _ => NegInf
  | Fin _, PosInf => PosInf
  | Fin _, NegInf => NegInf
  end.

(** [a < b]: false as soon as one side is NaN. *)
Definition ltb (a b : number) : bool :=
  match a, b with
  | NaN, _ => false
  | _, NaN => false
  | Fin x, Fin y => match (x ?= y)%Q with Lt => true | _ => false end
  | NegInf, NegInf => false
  | NegInf, _ => true
  | _, NegInf => false
  | PosInf, _ => false
  | Fin _, PosInf => true
  end.

(** [a >= b]: false as soon as one side is NaN, otherwise the negation of
    [a < b]. *)
Definition geb (a b : number) : bool :=
  match a, b with
  | NaN, _ => false
  | _, NaN => false
  | _, _ => negb (ltb a b)
  end.

Definition zero : number := Fin 0.

Definition is_nan (a : number) : bool :=
  match a with NaN => true | _ => false end.

End Num.

Export Num (number).

(** ** Exceptions *)

(** A thrown JavaScript value: a [TypeError] from reading a property of
    [null] or [undefined], the [RangeError] of formatting an invalid date, or
    whatever a rejected request carries. *)
Inductive js_error : Type :=
  | TypeError (msg : string)
  | RangeError (msg : string)
  | NetworkError (msg : string).

(** The completion of a statement or expression: a value or a throw. *)
Inductive completion (A : Type) : Type :=
  | Normal (a : A)
  | Thrown (e : js_error).

Arguments Normal {A} a.
Arguments Thrown {A} e.

(** ** The client, [App] *)

Module App.

(** [type Location = { lat: number; lng: number; address?: string }] *)
Record Location : Type := mkLocation {
  lat : number;
  lng : number;
  address : option string
}.

(** [type Restaurant]; the optional [sources?] is absent or a list, the
    nullable [location] is [null] or a [Location]. *)
Record Restaurant : Type := mkRestaurant {
  id : string;
  name : string;
  buzz_score : number;
  sentiment : number;
  mentions : number;
  summary : string;
  location : option Location;
  sources : option (list string)
}.

(** [type DataResponse = { date: string; restaurants: Restaurant[] }] *)
Record DataResponse : Type := mkDataResponse {
  date : string;
  restaurants : list Restaurant
}.

(** [const FALLBACK_CENTER = { lat: 43.6532, lng: -79.3832 }] *)
Definition FALLBACK_CENTER : Location :=
  {| lat := Num.Fin (436532 # 10000);
     lng := Num.Fin (-793832 # 10000);
     address := None |}.

(** The five [useState] cells of the component, with their initial values. *)
Record State : Type := mkState {
  st_restaurants : list Restaurant;
  st_selectedId : option string;
  st_lastRun : option string;
  st_isLoading : bool;
  st_error : option string
}.

Definition initial : State :=
  {| st_restaurants := [];
     st_selectedId := None;
     st_lastRun := None;
     st_isLoading := true;
     st_error := None |}.

(** What the effect can touch: the component state and the console. *)
Record World : Type := mkWorld {
  ui : State;
  console : list js_error
}.

(** Statements of the effect: they read and write the world and either
    complete normally or throw. *)
Definition M (A : Type) : Type := World -> completion A * World.

#[export] Instance M_ret : MRet M := fun A a w => (Normal a, w).

#[export] Instance M_bind : MBind M := fun A B k m w =>
  match m w with
  | (Normal a, w') => k a w'
  | (Thrown e, w') => (Thrown e, w')
  end.

Definition throw {A} (e : js_error) : M A := fun w => (Thrown e, w).

(** [try { body } catch (err) { handler } finally { cleanup }]: the handler
    runs on a throw of the body, the cleanup runs in every case, and a throw
    of the handler or of the cleanup is what escapes. *)
Definition try_catch_finally {A} (body : M A) (handler : js_error -> M A)
    (cleanup : M unit) : M A :=
  fun w =>
    let '(c, w1) :=
      match body w with
      | (Normal a, w') => (Normal a, w')
      | (Thrown e, w') => handler e w'
      end in
    match cleanup w1 with
    | (Normal _, w2) => (c, w2)
    | (Thrown e, w2) => (Thrown e, w2)
    end.

Definition modify (f : State -> State) : M unit :=
  fun w => (Normal tt, {| ui := f (ui w); console := console w |}).

Definition setRestaurants (v : list Restaurant) : M unit :=
  modify (fun s => {| st_restaurants := v;
                      st_selectedId := st_selectedId s;
                      st_lastRun := st_lastRun s;
                      st_isLoading := st_isLoading s;
                      st_error := st_error s |}).

Definition setSelectedId (v : option string) : M unit :=
  modify (fun s => {| st_restaurants := st_restaurants s;
                      st_selectedId := v;
                      st_lastRun := st_lastRun s;
                      st_isLoading := st_isLoading s;
                      st_error := st_error s |}).

Definition setLastRun (v : option string) : M unit :=
  modify (fun s => {| st_restaurants := st_restaurants s;
                      st_selectedId := st_selectedId s;
                      st_lastRun := v;
                      st_isLoading := st_isLoading s;
                      st_error := st_error s |}).

Definition setIsLoading (v : bool) : M unit :=
  modify (fun s => {| st_restaurants := st_restaurants s;
                      st_selectedId := st_selectedId s;
                      st_lastRun := st_lastRun s;
                      st_isLoading := v;
                      st_error := st_error s |}).

Definition setError (v : option string) : M unit :=
  modify (fun s => {| st_restaurants := st_restaurants s;
                      st_selectedId := st_selectedId s;
                      st_lastRun := st_lastRun s;
                      st_isLoading := st_isLoading s;
                      st_error := v |}).

(** [console.error(err)] *)
Definition console_error (e : js_error) : M unit :=
  fun w => (Normal tt, {| ui := ui w; console := console w ++ [e] |}).

(** What [await axios.get<DataResponse>(DATA_SOURCE, ...)] settles to: the
    promise resolves with a response whose [data] is the parsed snapshot, or
    it rejects and the [await] throws. *)
Inductive axios_result : Type :=
  | Resolved (data : DataResponse)
  | Rejected (e : js_error).

Definition await_get (net : axios_result) : M DataResponse :=
  match net with
  | Resolved d => mret d
  | Rejected e => throw e
  end.

(** [Array.prototype.sort] with a comparator.  The language fixes the
    comparison ([SortCompare]: a NaN result counts as [+0], a positive result
    puts the first argument after the second) and requires the sort to be
    stable; for a consistent comparator the result is therefore unique, and
    it is computed here by stable insertion from the right. *)
Definition sort_after {A} (comparefn : A -> A -> number) (x y : A) : bool :=
  Num.ltb Num.zero (comparefn x y).

Fixpoint sort_insert {A} (comparefn : A -> A -> number) (x : A) (l : list A)
    : list A :=
  match l with
  | [] => [x]
  | y :: l' =>
      if sort_after comparefn x y
      then y :: sort_insert comparefn x l'
      else x :: y :: l'
  end.

Fixpoint sort {A} (comparefn : A -> A -> number) (l : list A) : list A :=
  match l with
  | [] => []
  | x :: l' => sort_insert comparefn x (sort comparefn l')
  end.

(** [(a, b) => b.buzz_score - a.buzz_score] *)
Definition by_buzz_desc (a b : Restaurant) : number :=
  Num.sub (buzz_score b) (buzz_score a).

Definition fetch_error_message : string :=
  "Unable to fetch the latest buzz. Showing the last cached version.".

(** [fetchData], with the settlement of the request as its argument. *)
Definition fetchData (net : axios_result) : M unit :=
  try_catch_finally
    (setIsLoading true ;;
     response ← await_get net ;
     let sorted := sort by_buzz_desc (restaurants response) in
     setRestaurants sorted ;;
     setLastRun (Some (date response)) ;;
     setSelectedId (id <$> head sorted) ;;
     setError None)
    (fun err =>
       console_error err ;;
       setError (Some fetch_error_message))
    (setIsLoading false).

(** The state after the effect has run from [s]. *)
Definition after_fetch (net : axios_result) (s : State) : State :=
  ui (snd (fetchData net {| ui := s; console := [] |})).

(** [r.id === selectedId], with [selectedId : string | null]. *)
Definition id_is (selectedId : option string) (r : Restaurant) : bool :=
  match selectedId with
  | Some s => String.eqb (id r) s
  | None => false
  end.

(** [restaurants.find((r) => r.id === selectedId) ?? restaurants[0] ?? null] *)
Definition selected (s : State) : option Restaurant :=
  match List.find (id_is (st_selectedId s)) (st_restaurants s) with
  | Some r => Some r
  | None =>
      match head (st_restaurants s) with
      | Some r => Some r
      | None => None
      end
  end.

(** [restaurants.reduce((sum, r) => sum + r.mentions, 0)] *)
Definition totalMentions (s : State) : number :=
  fold_left (fun sum r => Num.add sum (mentions r)) (st_restaurants s) Num.zero.

(** No record carries a NaN score: the case of every list parsed from
    JSON, which has no literal for NaN. *)
Definition scores_are_numbers (l : list Restaurant) : Prop :=
  Forall (fun r => Num.is_nan (buzz_score r) = false) l.

(** [a.buzz_score >= b.buzz_score] *)
Definition outranks (a b : Restaurant) : Prop :=
  Num.geb (buzz_score a) (buzz_score b) = true.

End App.

(** ** The elements [App] renders *)

Module Render.

Import App.

#[export] Instance completion_ret : MRet completion := fun A a => Normal a.

#[export] Instance completion_bind : MBind completion := fun A B k c =>
  match c with
  | Normal a => k a
  | Thrown e => Thrown e
  end.

(** [o.f]: reading a property of [null] throws. *)
Definition get {A B} (o : option A) (f : A -> B) : completion B :=
  match o with
  | Some a => Normal (f a)
  | None => Thrown (TypeError "Cannot read properties of null")
  end.

(** [o?.f]: [undefined] when [o] is [null] or [undefined]. *)
Definition opt_chain {A B} (o : option A) (f : A -> option B) : option B :=
  match o with
  | Some a => f a
  | None => None
  end.

(** [o ?? d] *)
Definition nullish {A} (o : option A) (d : A) : A :=
  match o with
  | Some a => a
  | None => d
  end.

(** A string in a condition: the empty string is falsy. *)
Definition truthy (s : string) : bool :=
  match s with
  | EmptyString => false
  | _ => true
  end.

(** One [<button className="card">] of the list. *)
Record Card : Type := mkCard {
  card_key : string;
  card_selected : bool;
  card_name : string;
  card_score : number;
  card_summary : string;
  card_sentiment : number;
  card_mentions : number;
  card_sources : option nat
}.

(** The [<div className="selected-card">]. *)
Record SelectedCard : Type := mkSelectedCard {
  sc_name : string;
  sc_summary : string;
  sc_score : number;
  sc_sentiment : number;
  sc_mentions : number;
  sc_address : option string;
  sc_sources : option (list string)
}.

(** One [<AdvancedMarker>]. *)
Record Marker : Type := mkMarker {
  marker_key : string;
  marker_position : Location;
  marker_highlighted : bool
}.

(** [selected?.id === r.id] *)
Definition is_selected (sel : option Restaurant) (r : Restaurant) : bool :=
  match opt_chain sel (fun x => Some (id x)) with
  | Some i => String.eqb i (id r)
  | None => false
  end.

(** [(r.sources?.length ?? 0) > 0 && <span>{r.sources?.length}</span>] *)
Definition sources_badge (r : Restaurant) : option nat :=
  let n := nullish (opt_chain (sources r) (fun l => Some (length l))) 0%nat in
  if (0 <? n)%nat then opt_chain (sources r) (fun l => Some (length l))
  else None.

Definition card_of (sel : option Restaurant) (r : Restaurant) : Card :=
  {| card_key := id r;
     card_selected := is_selected sel r;
     card_name := name r;
     card_score := buzz_score r;
     card_summary := summary r;
     card_sentiment := sentiment r;
     card_mentions := mentions r;
     card_sources := sources_badge r |}.

(** [r.location && (<AdvancedMarker key={r.id} position={r.location} ...>)] *)
Definition marker_of (sel : option Restaurant) (r : Restaurant)
    : option Marker :=
  match location r with
  | Some loc =>
      Some {| marker_key := id r;
              marker_position := loc;
              marker_highlighted := is_selected sel r |}
  | None => None
  end.

(** [selected.location?.address && <p>{selected.location.address}</p>]:
    the second read is a plain property read, reached only when the first,
    guarded one gave a non-empty string. *)
Definition address_line (r : Restaurant) : completion (option string) :=
  match opt_chain (location r) address with
  | Some a =>
      if truthy a then get (location r) address
      else Normal None
  | None => Normal None
  end.

(** [selected.sources && selected.sources.length > 0 && (...)] *)
Definition sources_line (r : Restaurant) : option (list string) :=
  match sources r with
  | Some l => if (0 <? length l)%nat then Some l else None
  | None => None
  end.

(** [selected && (<div className="selected-card">...</div>)] *)
Definition selected_card_of (sel : option Restaurant)
    : completion (option SelectedCard) :=
  match sel with
  | None => Normal None
  | Some r =>
      addr ← address_line r ;
      mret (Some {| sc_name := name r;
                    sc_summary := summary r;
                    sc_score := buzz_score r;
                    sc_sentiment := sentiment r;
                    sc_mentions := mentions r;
                    sc_address := addr;
                    sc_sources := sources_line r |})
  end.

(** [center={selected?.location ?? FALLBACK_CENTER}] *)
Definition center_of (sel : option Restaurant) : Location :=
  nullish (opt_chain sel location) FALLBACK_CENTER.

(** [{error && <div className="alert">{error}</div>}] *)
Definition alert_of (s : State) : option string :=
  match st_error s with
  | Some e => if truthy e then Some e else None
  | None => None
  end.

End Render.

(** ** The snapshot contract as types *)

Module Contract.

(** The fragment of TypeScript's types the declarations use.  A field of an
    object type carries its name, whether it is optional ([name?:]) and its
    type. *)
Inductive ty : Type :=
  | TString
  | TNumber
  | TArray (elem : ty)
  | TNullable (t : ty)
  | TObject (fields : list (string * (bool * ty))).

Definition required (t : ty) : bool * ty := (false, t).
Definition optional (t : ty) : bool * ty := (true, t).

(** A parsed JSON document. *)
Inductive json : Type :=
  | JNull
  | JNumber (q : Q)
  | JString (s : string)
  | JArray (items : list json)
  | JObject (members : list (string * json)).

Fixpoint member (k : string) (members : list (string * json)) : option json :=
  match members with
  | [] => None
  | (k', v) :: rest => if String.eqb k k' then Some v else member k rest
  end.

(** Whether a document inhabits a type: an optional field may be missing, a
    required one may not, members the type does not name are allowed. *)
Fixpoint accepts (t : ty) (j : json) {struct t} : bool :=
  match t with
  | TString => match j with JString _ => true | _ => false end
  | TNumber => match j with JNumber _ => true | _ => false end
  | TArray elem =>
      match j with
      | JArray items => forallb (accepts elem) items
      | _ => false
      end
  | TNullable t' =>
      match j with
      | JNull => true
      | _ => accepts t' j
      end
  | TObject fields =>
      match j with
      | JObject members =>
          forallb (fun f : string * (bool * ty) =>
                     match member (fst f) members with
                     | Some v => accepts (snd (snd f)) v
                     | None => fst (snd f)
                     end) fields
      | _ => false
      end
  end.

Definition field_names (t : ty) : list string :=
  match t with
  | TObject fields => List.map fst fields
  | _ => []
  end.

(** The declarations at the top of [App.tsx]. *)
Definition Location : ty :=
  TObject [("lat", required TNumber);
           ("lng", required TNumber);
           ("address", optional TString)].

Definition Restaurant : ty :=
  TObject [("id", required TString);
           ("name", required TString);
           ("buzz_score", required TNumber);
           ("sentiment", required TNumber);
           ("mentions", required TNumber);
           ("summary", required TString);
           ("location", required (TNullable Location));
           ("sources", optional (TArray TString))].

Definition DataResponse : ty :=
  TObject [("date", required TString);
           ("restaurants", required (TArray Restaurant))].

(** Modelled from the spec: the published artifact, whose producer is not
    among the sources.  [location] is serialized as
    [{lat: number, lng: number, address?: string}] or [null], and a
    BuzzRecord is [{id, name, buzz_score, sentiment, mentions, summary,
    location: Location|null, sources: [string]}]. *)
Definition PublishedLocation : ty :=
  TObject [("lat", required TNumber);
           ("lng", required TNumber);
           ("address", optional TString)].

Definition BuzzRecord : ty :=
  TObject [("id", required TString);
           ("name", required TString);
           ("buzz_score", required TNumber);
           ("sentiment", required TNumber);
           ("mentions", required TNumber);
           ("summary", required TString);
           ("location", required (TNullable PublishedLocation));
           ("sources", required (TArray TString))].

(** Modelled from the spec: the top-level object
    [{date: string, restaurants: [BuzzRecord]}]. *)
Definition Snapshot : ty :=
  TObject [("date", required TString);
           ("restaurants", required (TArray BuzzRecord))].

(** The properties of a record that [App.tsx] reads, in the order of their
    first use. *)
Definition App_reads : list string :=
  ["buzz_score"; "id"; "mentions"; "name"; "summary"; "sentiment";
   "sources"; "location"].

(** The properties of its [restaurant] prop that [RestaurantCard.tsx]
    reads, in the order of their first use. *)
Definition RestaurantCard_reads : list string :=
  ["is_new"; "name"; "buzz_score"; "cuisine_type"; "price_range";
   "summary"; "sentiment"; "mentions"; "sources"; "user_likes";
   "user_saves"].

Definition client_reads : list string := App_reads ++ RestaurantCard_reads.

(** Makes the named field of an object type required. *)
Definition require_field (k : string) (t : ty) : ty :=
  match t with
  | TObject fields =>
      TObject (List.map (fun f : string * (bool * ty) =>
                           if String.eqb (fst f) k
                           then (fst f, (false, snd (snd f)))
                           else f) fields)
  | _ => t
  end.

(** Exact agreement of the client with the contract: the client's types are
    the contract's, and the client reads nothing the contract does not
    name. *)
Definition matches_contract_exactly : Prop :=
  DataResponse = Snapshot /\
  Forall (fun f => In f (field_names BuzzRecord)) client_reads.

End Contract.

(** ** The buzz score *)

Module Score.

(** Modelled from the spec: the aggregator is not among the sources.  The
    score is the combination the design gives, [mentions * (sentiment/10)],
    of the number of mentions of an identity and the mean of their
    sentiments. *)
Definition buzz_score (mentions : nat) (sentiment : Q) : Q :=
  (inject_Z (Z.of_nat mentions) * (sentiment / 10))%Q.

(** Modelled from the spec: a sentiment is a value of [0,10], which the
    extractor guarantees by clamping. *)
Definition valid_sentiment (s : Q) : Prop := (0 <= s /\ s <= 10)%Q.

End Score.

(** ** The identity resolver *)

Module Resolver.

(** Modelled from the spec: the resolver is not among the sources.  A
    mention is [{restaurant_name_guess, sentiment, summary, source_id}]. *)
Record Mention : Type := mkMention {
  restaurant_name_guess : string;
  sentiment : Q;
  summary : string;
  source_id : string
}.

(** Modelled from the spec: "strip ... diacritics", for a letter that
    carries its diacritic in one code point.  The accented letters of the
    Latin-1 supplement are encoded as the byte 195 and a second byte; this
    gives the plain letter for the second byte, when there is one. *)
Definition base_letter (second : ascii) : option ascii :=
  let n := nat_of_ascii second in
  if ((128 <=? n) && (n <=? 133))%nat then Some "a"%char
  else if (n =? 135)%nat then Some "c"%char
  else if ((136 <=? n) && (n <=? 139))%nat then Some "e"%char
  else if ((140 <=? n) && (n <=? 143))%nat then Some "i"%char
  else if (n =? 145)%nat then Some "n"%char
  else if ((146 <=? n) && (n <=? 150))%nat then Some "o"%char
  else if (n =? 152)%nat then Some "o"%char
  else if ((153 <=? n) && (n <=? 156))%nat then Some "u"%char
  else if (n =? 157)%nat then Some "y"%char
  else if ((160 <=? n) && (n <=? 165))%nat then Some "a"%char
  else if (n =? 167)%nat then Some "c"%char
  else if ((168 <=? n) && (n <=? 171))%nat then Some "e"%char
  else if ((172 <=? n) && (n <=? 175))%nat then Some "i"%char
  else if (n =? 177)%nat then Some "n"%char
  else if ((178 <=? n) && (n <=? 182))%nat then Some "o"%char
  else if (n =? 184)%nat then Some "o"%char
  else if ((185 <=? n) && (n <=? 188))%nat then Some "u"%char
  else if ((n =? 189) || (n =? 191))%nat then Some "y"%char
  else None.

Definition is_lead (c : ascii) : bool := (nat_of_ascii c =? 195)%nat.

(** Modelled from the spec: every accented letter of the text is replaced
    by its plain letter; the rest of the text is left for the scan. *)
Fixpoint fold_diacritics (s : string) : string :=
  match s with
  | EmptyString => EmptyString
  | String c rest =>
      if is_lead c then
        match rest with
        | String c2 rest' =>
            match base_letter c2 with
            | Some b => String b (fold_diacritics rest')
            | None => String c (fold_diacritics rest)
            end
        | EmptyString => String c EmptyString
        end
      else String c (fold_diacritics rest)
  end.

(** Modelled from the spec: what normalization does with one character of
    the folded text.  Letters are kept in lower case and digits as they are,
    white space separates words, and everything else is stripped:
    punctuation, the bytes of a combining diacritic (which leaves the letter
    before it plain), and the bytes of any character outside the alphabet
    of this model, ASCII and the accented Latin-1 letters. *)
Inductive char_class : Type :=
  | Word (c : ascii)
  | Space
  | Stripped.

Definition classify (c : ascii) : char_class :=
  let n := nat_of_ascii c in
  if ((65 <=? n) && (n <=? 90))%nat then Word (ascii_of_nat (n + 32))
  else if ((97 <=? n) && (n <=? 122))%nat then Word c
  else if ((48 <=? n) && (n <=? 57))%nat then Word c
  else if ((n =? 32) || ((9 <=? n) && (n <=? 13)))%nat then Space
  else Stripped.

(** Where the scan of a name stands: nothing written yet, just after a
    character of a word, or after a word and some white space. *)
Inductive scan : Type :=
  | AtStart
  | InWord
  | AfterGap.

(** Modelled from the spec: "normalize case, strip punctuation/diacritics,
    collapse whitespace", in one pass: a run of white space between two
    words becomes one space, white space at either end disappears. *)
Fixpoint normalize_from (st : scan) (s : string) : string :=
  match s with
  | EmptyString => EmptyString
  | String c rest =>
      match classify c with
      | Word c' =>
          match st with
          | AfterGap => String " " (String c' (normalize_from InWord rest))
          | _ => String c' (normalize_from InWord rest)
          end
      | Space =>
          match st with
          | AtStart => normalize_from AtStart rest
          | _ => normalize_from AfterGap rest
          end
      | Stripped => normalize_from st rest
      end
  end.

Definition normalize (s : string) : string :=
  normalize_from AtStart (fold_diacritics s).

(** The pieces of a text between its spaces, empty ones included. *)
Fixpoint split_words (s : string) : list string :=
  match s with
  | EmptyString => [EmptyString]
  | String c rest =>
      if Ascii.eqb c " " then EmptyString :: split_words rest
      else
        match split_words rest with
        | w :: ws => String c w :: ws
        | [] => [String c EmptyString]
        end
  end.

(** The words of a normalized form. *)
Definition words (s : string) : list string :=
  List.filter (fun w => negb (String.eqb w EmptyString)) (split_words s).

Fixpoint starts_with (a b : list string) : bool :=
  match a, b with
  | [], _ => true
  | _ :: _, [] => false
  | x :: a', y :: b' => String.eqb x y && starts_with a' b'
  end.

Fixpoint run_of (a b : list string) : bool :=
  starts_with a b ||
  match b with
  | [] => false
  | _ :: b' => run_of a b'
  end.

(** Modelled from the spec: "one is a substring of the other".  A
    normalized form is a sequence of words, and [a] is a substring of [b]
    when the words of [a] occur in [b] as a run of consecutive words: so is
    "alo" in "alo restaurant", while "alobar", which only begins with the
    same letters, is "not a substring match under normalization". *)
Definition substring_of (a b : string) : bool := run_of (words a) (words b).

(** Modelled from the spec: two normalized forms are the same identity "if
    normalized forms are equal OR one is a substring of the other above a
    minimum length threshold"; the threshold bounds the length of the
    contained form, so that a short name is not merged into every name that
    happens to contain it. *)
Definition matches (threshold : nat) (a b : string) : bool :=
  String.eqb a b
  || ((threshold <=? String.length a)%nat && substring_of a b)
  || ((threshold <=? String.length b)%nat && substring_of b a).

Definition same_identity (threshold : nat) (a b : string) : bool :=
  matches threshold (normalize a) (normalize b).

(** Modelled from the spec: among the canonical forms seen so far that the
    name matches, "prefer the longer"; of two equally long ones the one seen
    first stays. *)
Fixpoint best_match (threshold : nat) (n : string) (keys : list string)
    : option string :=
  match keys with
  | [] => None
  | k :: rest =>
      let later := best_match threshold n rest in
      if matches threshold n k then
        match later with
        | Some k' =>
            if (String.length k <? String.length k')%nat then Some k'
            else Some k
        | None => Some k
        end
      else later
  end.

(** Modelled from the spec: the "mapping RestaurantIdentity -> sequence of
    Mention" the resolver returns; the identities of a run in the order they
    were first seen, each with its mentions in the order they arrived. *)
Definition groups : Type := list (string * list Mention).

Definition keys (g : groups) : list string := List.map fst g.

Fixpoint append_to (k : string) (m : Mention) (g : groups) : groups :=
  match g with
  | [] => []
  | (k', ms) :: rest =>
      if String.eqb k k' then (k', (ms ++ [m])%list) :: rest
      else (k', ms) :: append_to k m rest
  end.

(** Modelled from the spec: the canonical name a mention gets, given the
    identities seen so far; the best match, or its own normalized form,
    which then becomes a new identity. *)
Definition canonical_of (threshold : nat) (g : groups) (m : Mention)
    : string :=
  let n := normalize (restaurant_name_guess m) in
  match best_match threshold n (keys g) with
  | Some k => k
  | None => n
  end.

(** Modelled from the spec: one step of the resolver; the mention joins the
    identity it matches best or opens a new one. *)
Definition add_mention (threshold : nat) (g : groups) (m : Mention)
    : groups :=
  let n := normalize (restaurant_name_guess m) in
  match best_match threshold n (keys g) with
  | Some k => append_to k m g
  | None => (g ++ [(n, [m])])%list
  end.

(** Modelled from the spec: [resolve(sequence of Mention) -> mapping
    RestaurantIdentity -> sequence of Mention]. *)
Definition resolve_from (threshold : nat) (g : groups) (ms : list Mention)
    : groups :=
  fold_left (add_mention threshold) ms g.

Definition resolve (threshold : nat) (ms : list Mention) : groups :=
  resolve_from threshold [] ms.

Definition rename (k : string) (m : Mention) : Mention :=
  {| restaurant_name_guess := k;
     sentiment := sentiment m;
     summary := summary m;
     source_id := source_id m |}.

(** The mentions of a run with every name guess replaced by the canonical
    name the resolution gave it: the "already-canonical" input. *)
Fixpoint canonicalize_from (threshold : nat) (g : groups)
    (ms : list Mention) : list Mention :=
  match ms with
  | [] => []
  | m :: rest =>
      rename (canonical_of threshold g m) m
      :: canonicalize_from threshold (add_mention threshold g m) rest
  end.

Definition canonicalize (threshold : nat) (ms : list Mention)
    : list Mention :=
  canonicalize_from threshold [] ms.

(** A grouping with the name guesses of its mentions replaced by the
    identity they belong to. *)
Definition canonical_groups (g : groups) : groups :=
  List.map (fun kv : string * list Mention =>
              (fst kv, List.map (rename (fst kv)) (snd kv))) g.

(** The canonical name of a name guess in a finished grouping. *)
Definition identity_of (g : groups) (guess : string) : option string :=
  fst <$> List.find
    (fun kv : string * list Mention =>
       existsb (fun m => String.eqb (restaurant_name_guess m) guess) (snd kv))
    g.

Definition mention_of (guess : string) : Mention :=
  {| restaurant_name_guess := guess;
     sentiment := 5;
     summary := "";
     source_id := "" |}.

(** The name set of the design's example, in the order it is given. *)
Definition example_names : list Mention :=
  [mention_of "Alo"; mention_of "ALO Restaurant"; mention_of "Alobar"].

(** The grouping the example expects: "Alo" and "ALO Restaurant" in one
    identity, "Alobar" in another. *)
Definition expected_grouping (g : groups) : Prop :=
  identity_of g "Alo" <> None /\
  identity_of g "Alo" = identity_of g "ALO Restaurant" /\
  identity_of g "Alobar" <> None /\
  identity_of g "Alobar" <> identity_of g "Alo".

Definition expected_example_grouping (threshold : nat) : Prop :=
  expected_grouping (resolve threshold example_names).

(** The six orders in which the three names can arrive. *)
Definition example_orders : list (list Mention) :=
  let a := mention_of "Alo" in
  let b := mention_of "ALO Restaurant" in
  let c := mention_of "Alobar" in
  [[a; b; c]; [a; c; b]; [b; a; c]; [b; c; a]; [c; a; b]; [c; b; a]].

(** What is kept true of the identities of a run: each is a normalized
    form, and no two different ones match. *)
Definition well_separated (threshold : nat) (g : groups) : Prop :=
  (forall k, In k (keys g) -> normalize k = k) /\
  (forall k k', In k (keys g) -> In k' (keys g) ->
     matches threshold k k' = true -> k' = k).

End Resolver.

(** ** The geocoder and its cache *)

Module Geocoder.

(** Modelled from the spec: the geocoder is not among the sources.  A
    location is "lat/lng + address". *)
Record Location : Type := mkLocation {
  lat : Q;
  lng : Q;
  address : string
}.

(** Modelled from the spec: what the external provider does with one
    request; a best match, no match ("may legitimately return no match"),
    or a transient failure ([GeocodeProviderError]). *)
Inductive reply : Type :=
  | Found (l : Location)
  | NoMatch
  | Unavailable.

(** Modelled from the spec: the provider is injected; its answer may depend
    on the name and on how many requests were made before. *)
Definition provider : Type := string -> nat -> reply.

(** Modelled from the spec: the "explicit key-value store object passed
    into the Geocoder"; the durable cache (an entry holds a location or the
    explicit null marker; its [cached_at] stamp plays no part in a lookup
    and is left out), the names that fell back to null in this run only,
    and the log of the external requests made. *)
Record Store : Type := mkStore {
  durable : gmap string (option Location);
  run_nulls : gset string;
  calls : list string
}.

Definition empty : Store :=
  {| durable := ∅; run_nulls := ∅; calls := [] |}.

(** Modelled from the spec: "retry a bounded number of times"; the
    provider is requested at most [attempts] times, stopping at the first
    answer, and [None] says that every attempt failed transiently. *)
Fixpoint request (p : provider) (name : string) (attempts : nat)
    (log : list string) : option (option Location) * list string :=
  match attempts with
  | O => (None, log)
  | S n =>
      match p name (length log) with
      | Found l => (Some (Some l), (log ++ [name])%list)
      | NoMatch => (Some None, (log ++ [name])%list)
      | Unavailable => request p name n (log ++ [name])%list
      end
  end.

(** Modelled from the spec: "check persistent cache first; on hit, return
    cached value (including a cached null)"; on a miss call the provider and
    "store the result (success or null) in the cache keyed by canonical_name
    before returning".  A provider that keeps failing after the bounded
    retries gives null "for this run only, without poisoning the durable
    cache". *)
Definition geocode (p : provider) (retries : nat) (name : string)
    (st : Store) : option Location * Store :=
  match durable st !! name with
  | Some v => (v, st)
  | None =>
      if decide (name ∈ run_nulls st) then (None, st)
      else
        match request p name (S retries) (calls st) with
        | (Some v, log) =>
            (v, {| durable := <[name := v]> (durable st);
                   run_nulls := run_nulls st;
                   calls := log |})
        | (None, log) =>
            (None, {| durable := durable st;
                      run_nulls := {[name]} ∪ run_nulls st;
                      calls := log |})
        end
  end.

(** Modelled from the spec: the start of a later run; the durable cache is
    "the only cross-run state" (the request log is kept for counting). *)
Definition new_run (st : Store) : Store :=
  {| durable := durable st; run_nulls := ∅; calls := calls st |}.

(** What can happen between two lookups of a name. *)
Inductive event : Type :=
  | Lookup (name : string)
  | NextRun.

Definition step (p : provider) (retries : nat) (st : Store) (e : event)
    : Store :=
  match e with
  | Lookup name => snd (geocode p retries name st)
  | NextRun => new_run st
  end.

Definition run (p : provider) (retries : nat) (es : list event)
    (st : Store) : Store :=
  fold_left (step p retries) es st.


(** The number of external requests made for a name. *)
Definition external_calls (name : string) (st : Store) : nat :=
  length (List.filter (String.eqb name) (calls st)).



End Geocoder.

(** ** The publisher *)

Module Publisher.

(** Modelled from the spec: the publisher is not among the sources.  The
    destination is a store of keyed objects (a directory of files, or an
    object store); a consumer reads the object under the destination key. *)
Definition Store : Type := gmap string string.

Definition read (dest : string) (st : Store) : option string := st !! dest.

(** Modelled from the spec: the "temporary location/key" next to a
    destination. *)
Definition temp_key (dest : string) : string := dest ++ ".tmp".

Inductive status : Type :=
  | Published
  | PublishFailure.

(** Modelled from the spec: a run of the publisher; how it ended, the store
    it left, and every store a consumer could have read from meanwhile,
    oldest first. *)
Record outcome : Type := mkOutcome {
  result : status;
  final : Store;
  observable : list Store
}.

(** Modelled from the spec: the write "to a temporary location/key"; the
    chunks of the serialized artifact are appended to the temporary object,
    one storage operation each.  [faults i] tells whether the [i]-th storage
    operation of the run fails; a failed operation changes nothing and ends
    the run. *)
Fixpoint stage (faults : nat -> bool) (i : nat) (tmp : string)
    (chunks : list string) (st : Store) : option Store * list Store :=
  match chunks with
  | [] => (Some st, [])
  | c :: rest =>
      if faults i then (None, [])
      else
        let st' := <[tmp := (default "" (st !! tmp) ++ c)%string]> st in
        let '(r, seen) := stage faults (S i) tmp rest st' in
        (r, st' :: seen)
  end.

(** Modelled from the spec: the "one rename/replace-style operation"; the
    destination takes the content of the temporary object, which
    disappears. *)
Definition finalize (tmp dest : string) (st : Store) : Store :=
  match st !! tmp with
  | Some content => <[dest := content]> (delete tmp st)
  | None => st
  end.

(** Modelled from the spec: "write to a temporary location/key and finalize
    in one rename/replace-style operation"; a failed write is "fatal for the
    run". *)
Definition publish (faults : nat -> bool) (dest : string)
    (chunks : list string) (st : Store) : outcome :=
  let tmp := temp_key dest in
  if faults 0%nat then
    {| result := PublishFailure; final := st; observable := [st] |}
  else
    let st0 := <[tmp := ""]> st in
    match stage faults 1 tmp chunks st0 with
    | (None, seen) =>
        {| result := PublishFailure;
           final := List.last seen st0;
           observable := st :: st0 :: seen |}
    | (Some st1, seen) =>
        if faults (S (length chunks)) then
          {| result := PublishFailure;
             final := st1;
             observable := st :: st0 :: seen |}
        else
          let st2 := finalize tmp dest st1 in
          {| result := Published;
             final := st2;
             observable := (st :: st0 :: seen) ++ [st2] |}
    end.

(** The serialized artifact the chunks make up. *)
Definition artifact (chunks : list string) : string :=
  fold_right String.append "" chunks.

End Publisher.

(** ** Sample data *)

Module Samples.

Import App.

Definition pai_location : Location :=
  {| lat := Num.Fin (436478 # 10000);
     lng := Num.Fin (-793886 # 10000);
     address := Some "18 Duncan St, Toronto" |}.

Definition alo : Restaurant :=
  {| id := "alo"; name := "Alo";
     buzz_score := Num.Fin (17 # 10); sentiment := Num.Fin (85 # 10);
     mentions := Num.Fin 2; summary := "Tasting menu worth the wait";
     location := None; sources := Some ["reddit"; "toronto-life"] |}.

Definition pai : Restaurant :=
  {| id := "pai"; name := "Pai";
     buzz_score := Num.Fin (24 # 10); sentiment := Num.Fin 8;
     mentions := Num.Fin 3; summary := "Khao soi everyone talks about";
     location := Some pai_location; sources := None |}.

Definition alobar : Restaurant :=
  {| id := "alobar"; name := "Alobar";
     buzz_score := Num.Fin (6 # 10); sentiment := Num.Fin 6;
     mentions := Num.Fin 1; summary := "Solid cocktails";
     location := None; sources := Some [] |}.

Definition response : DataResponse :=
  {| date := "2025-01-15T11:00:00Z"; restaurants := [alo; pai; alobar] |}.

Definition loaded : State := after_fetch (Resolved response) initial.

(** The state after a click on the card of [alo]. *)
Definition alo_clicked : State :=
  {| st_restaurants := st_restaurants loaded;
     st_selectedId := Some "alo";
     st_lastRun := st_lastRun loaded;
     st_isLoading := st_isLoading loaded;
     st_error := st_error loaded |}.

(** A record as the pipeline could publish it, and the same record without
    its [sources]. *)
Definition record_with_sources : Contract.json :=
  Contract.JObject
    [("id", Contract.JString "alo"); ("name", Contract.JString "Alo");
     ("buzz_score", Contract.JNumber (17 # 10));
     ("sentiment", Contract.JNumber (85 # 10));
     ("mentions", Contract.JNumber 2);
     ("summary", Contract.JString "Tasting menu worth the wait");
     ("location", Contract.JNull);
     ("sources", Contract.JArray [Contract.JString "reddit"])].

Definition record_without_sources : Contract.json :=
  Contract.JObject
    [("id", Contract.JString "alo"); ("name", Contract.JString "Alo");
     ("buzz_score", Contract.JNumber (17 # 10));
     ("sentiment", Contract.JNumber (85 # 10));
     ("mentions", Contract.JNumber 2);
     ("summary", Contract.JString "Tasting menu worth the wait");
     ("location", Contract.JNull)].

(** A live snapshot, and a storage that fails on its third operation. *)
Definition live_store : Publisher.Store := {["latest.json" := "old"]}.

Definition third_fails (i : nat) : bool := Nat.eqb i 2.

Definition never_fails (i : nat) : bool := false.




(** A provider that fails the first request it gets and has no match for
    any later one. *)
Definition flaky : Geocoder.provider :=
  fun _ n => if Nat.eqb n 0 then Geocoder.Unavailable else Geocoder.NoMatch.


End Samples.

(** ** Interaction with [App] *)

Module Interaction.

Import App.

(** [onClick={() => setSelectedId(r.id)}], the handler of a card of the list
    and of a marker alike. *)
Definition select_record (r : Restaurant) : M unit :=
  setSelectedId (Some (id r)).

(** The state after a click on the card or the marker of [r]. *)
Definition after_click (r : Restaurant) (s : State) : State :=
  ui (snd (select_record r {| ui := s; console := [] |})).

(** What happens to the mounted component: a request of the effect settles,
    or the user clicks the card shown at a position of the list (a position
    past the end has no card to click). *)
Inductive event : Type :=
  | Settled (net : axios_result)
  | Clicked (position : nat).

Definition step (s : State) (e : event) : State :=
  match e with
  | Settled net => after_fetch net s
  | Clicked i =>
      match st_restaurants s !! i with
      | Some r => after_click r s
      | None => s
      end
  end.

Definition run (es : list event) (s : State) : State := fold_left step es s.

(** The snapshots among the events carry numbers as scores. *)
Definition numeric (e : event) : Prop :=
  match e with
  | Settled (Resolved d) => scores_are_numbers (restaurants d)
  | _ => True
  end.

(** [selectedId] names a record of the list, or is [null] with an empty
    list. *)
Definition selection_valid (s : State) : Prop :=
  match st_restaurants s with
  | [] => st_selectedId s = None
  | _ => exists r, In r (st_restaurants s) /\ st_selectedId s = Some (id r)
  end.

(** [a.buzz_score] and [b.buzz_score] compare equal: neither difference is
    positive. *)
Definition tied (a b : Restaurant) : bool :=
  Num.geb (buzz_score a) (buzz_score b)
  && Num.geb (buzz_score b) (buzz_score a).

(** A count read from JSON: a non-negative integer. *)
Definition count (n : Z) : number := Num.Fin (inject_Z n).

Definition count_of (n : number) : Z :=
  match n with
  | Num.Fin q => Qfloor q
  | _ => 0%Z
  end.

Definition sum_counts (l : list Restaurant) : Z :=
  fold_right Z.add 0%Z (List.map (fun r => count_of (mentions r)) l).

(** Every [mentions] is a count and their sum is a safe integer, so that
    the additions of [reduce] are exact. *)
Definition counts_fit (l : list Restaurant) : Prop :=
  Forall (fun r => exists z, (0 <= z)%Z /\ mentions r = count z) l /\
  (sum_counts l <= 2 ^ 53)%Z.

End Interaction.

(** ** Formatting *)

Module Format.

(** The integer [n] of [Number.prototype.toFixed] at one fraction digit, for
    the absolute value: the integer for which [n / 10 - x] is closest to
    zero, the larger one of two. *)
Definition tenths (q : Q) : Z := Qfloor (10 * Qabs q + (1 # 2)).

Definition decimal (n : Z) : string :=
  NilZero.string_of_uint (N.to_uint (Z.to_N n)).

Definition negative (q : Q) : bool :=
  match (q ?= 0)%Q with Lt => true | _ => false end.

(** [x.toFixed(1)].  A value that is not finite prints by name; a finite one
    below [10^21] in absolute value prints its sign, the integer part of
    [n / 10], a point and the last digit of [n].  From [10^21] on the
    language prints the shortest digits that identify the double, which the
    rational does not determine: [None]. *)
Definition toFixed1 (x : number) : option string :=
  match x with
  | Num.NaN => Some "NaN"
  | Num.PosInf => Some "Infinity"
  | Num.NegInf => Some "-Infinity"
  | Num.Fin q =>
      if Qle_bool (inject_Z (10 ^ 21)) (Qabs q) then None
      else
        let n := tenths q in
        Some ((if negative q then "-" else "")
              ++ decimal (n / 10) ++ "." ++ decimal (n mod 10))
  end.

(** The number a printed score stands for: the signed [n / 10]. *)
Definition shown (q : Q) : Q :=
  if negative q then - (inject_Z (tenths q) / 10) else inject_Z (tenths q) / 10.

(** What the [formattedDate] memo gives: a value, or the [RangeError] of
    [Intl.DateTimeFormat.prototype.format] on an invalid date. *)
Inductive memo (A : Type) : Type :=
  | Returned (a : A)
  | RangeError.

Arguments Returned {A} a.
Arguments RangeError {A}.

Section Dates.

(** Whether [new Date(s)] is a valid date, and what the formatter set up with
    ['en-CA'], medium date, short time and the Toronto zone prints for it:
    both belong to the platform. *)
Variable valid_date : string -> bool.
Variable format : string -> string.

(** [formattedDate]: [if (!lastRun) return null], else the formatted date. *)
Definition formattedDate (lastRun : option string) : memo (option string) :=
  match lastRun with
  | None => Returned None
  | Some s =>
      if negb (Render.truthy s) then Returned None
      else if valid_date s then Returned (Some (format s))
      else RangeError
  end.

(** [{formattedDate ?? '—'}], the dash written [None]. *)
Definition last_run_cell (s : App.State) : memo (option string) :=
  formattedDate (App.st_lastRun s).

End Dates.

End Format.

(** ** What [App] renders *)

Module Page.

Import App Render.

(** The rendered tree: everything in it that depends on the state.  The
    headings and labels, which are fixed text, are left out, and a score or
    a sentiment is held as the number that [toFixed(1)] prints
    ([Format.toFixed1]). *)
Record View : Type := mkView {
  status_chip : string;
  metric_restaurants : nat;
  metric_mentions : number;
  last_run : string;
  alert : option string;
  cards : list Card;
  selected_card : option SelectedCard;
  map_center : Location;
  markers : list Marker
}.

Section Platform.

(** The two services of the platform that [formattedDate] uses, as in
    [Format]. *)
Variable valid_date : string -> bool.
Variable format : string -> string.

(** The [formattedDate] memo as it is evaluated during a render: its
    [RangeError] is thrown out of the component. *)
Definition formatted (s : State) : completion (option string) :=
  match Format.formattedDate valid_date format (st_lastRun s) with
  | Format.Returned d => Normal d
  | Format.RangeError => Thrown (RangeError "Invalid time value")
  end.

(** [{isLoading ? 'Refreshing…' : 'Live'}] *)
Definition chip_of (s : State) : string :=
  if st_isLoading s then "Refreshing…" else "Live".

(** The body of [App] after the state hooks: the memos [selected],
    [totalMentions] and [formattedDate], then the tree. *)
Definition render (s : State) : completion View :=
  let sel := selected s in
  let total := totalMentions s in
  date ← formatted s ;
  card ← selected_card_of sel ;
  mret {| status_chip := chip_of s;
          metric_restaurants := length (st_restaurants s);
          metric_mentions := total;
          last_run := nullish date "—";
          alert := alert_of s;
          cards := List.map (card_of sel) (st_restaurants s);
          selected_card := card;
          map_center := center_of sel;
          markers := omap (marker_of sel) (st_restaurants s) |}.

End Platform.

End Page.

(** ** The card component, [RestaurantCard] *)

Module RestaurantCard.

(** The properties of the [restaurant] prop that the component reads.  The
    type is declared in [../types], which is not among the sources: each
    field has the type its use requires, and the type of [price_range],
    which is only handed to [getPriceDisplay], is left open. *)
Record Restaurant (Price : Type) : Type := mkRestaurant {
  is_new : bool;
  name : string;
  buzz_score : number;
  cuisine_type : string;
  price_range : Price;
  summary : string;
  sentiment : number;
  mentions : number;
  sources : option (list string);
  user_likes : number;
  user_saves : number
}.

Arguments is_new {Price} r.
Arguments name {Price} r.
Arguments buzz_score {Price} r.
Arguments cuisine_type {Price} r.
Arguments price_range {Price} r.
Arguments summary {Price} r.
Arguments sentiment {Price} r.
Arguments mentions {Price} r.
Arguments sources {Price} r.
Arguments user_likes {Price} r.
Arguments user_saves {Price} r.

(** [RestaurantCardProps] without the callbacks; an optional prop is absent
    or given. *)
Record Props (Price : Type) : Type := mkProps {
  restaurant : Restaurant Price;
  isSelected : bool;
  isLiked : option bool;
  isSaved : option bool;
  rank : option number
}.

Arguments restaurant {Price} p.
Arguments isSelected {Price} p.
Arguments isLiked {Price} p.
Arguments isSaved {Price} p.
Arguments rank {Price} p.

(** A number in a condition: [0] and NaN are falsy. *)
Definition truthy_number (n : number) : bool :=
  match n with
  | Num.NaN => false
  | Num.Fin q => negb (Qeq_bool q 0)
  | _ => true
  end.

(** What React puts in the place of [{rank && rank <= 3 && (<div>...)}]:
    nothing for [undefined] and [false], the number itself for a falsy
    number, the badge otherwise. *)
Inductive rank_slot : Type :=
  | NoBadge
  | StrayNumber (n : number)
  | RankBadge (n : number).

Definition rank_badge (rank : option number) : rank_slot :=
  match rank with
  | None => NoBadge
  | Some n =>
      if truthy_number n then
        if Num.geb (Num.Fin 3) n then RankBadge n else NoBadge
      else StrayNumber n
  end.

(** [restaurant.sources && restaurant.sources.length > 0 && (...)], the
    count shown. *)
Definition sources_stat {Price} (r : Restaurant Price) : option nat :=
  match sources r with
  | Some l => if (0 <? length l)%nat then Some (length l) else None
  | None => None
  end.

(** One action button: its class, whether its icon is the active one, and
    the count beside it. *)
Record Action : Type := mkAction {
  action_class : string;
  action_active : bool;
  action_count : number
}.

Definition action_of (active : bool) (n : number) : Action :=
  {| action_class :=
       "restaurant-card__action "
       ++ (if active then "restaurant-card__action--active" else "");
     action_active := active;
     action_count := n |}.

(** The rendered [<article>]. *)
Record View : Type := mkView {
  className : string;
  rank_place : rank_slot;
  new_badge : bool;
  title : string;
  buzz : number;
  cuisine : string;
  price : string;
  text : string;
  heart : number;
  talk : number;
  press : option nat;
  like : Action;
  save : Action
}.

(** The body of [RestaurantCard]; [isLiked] and [isSaved] default to
    [false]. *)
Definition render {Price} (getPriceDisplay : Price -> string)
    (p : Props Price) : View :=
  let r := restaurant p in
  {| className :=
       "restaurant-card "
       ++ (if isSelected p then "restaurant-card--selected" else "");
     rank_place := rank_badge (rank p);
     new_badge := is_new r;
     title := name r;
     buzz := buzz_score r;
     cuisine := cuisine_type r;
     price := getPriceDisplay (price_range r);
     text := summary r;
     heart := sentiment r;
     talk := mentions r;
     press := sources_stat r;
     like := action_of (default false (isLiked p)) (user_likes r);
     save := action_of (default false (isSaved p)) (user_saves r) |}.

(** A call the component makes: one of its callback props, or
    [navigator.share]. *)
Inductive call : Type :=
  | OnSelect
  | OnLike
  | OnSave
  | Share (title text : string).

(** What a handler did: the calls it made, and whether it called
    [e.stopPropagation()]. *)
Record handled : Type := mkHandled {
  calls : list call;
  stopped : bool
}.

(** The elements of the card that carry a click handler, and everything
    else inside the [<article>]. *)
Inductive part : Type :=
  | Article
  | LikeButton
  | SaveButton
  | ShareButton.

(** The [onClick] of each part.  [navigator.share?.(...)] does nothing where
    the browser has no [share]. *)
Definition onClick {Price} (can_share : bool) (p : Props Price)
    (target : part) : handled :=
  match target with
  | Article => {| calls := [OnSelect]; stopped := false |}
  | LikeButton => {| calls := [OnLike]; stopped := true |}
  | SaveButton => {| calls := [OnSave]; stopped := true |}
  | ShareButton =>
      {| calls := if can_share
                  then [Share (name (restaurant p)) (summary (restaurant p))]
                  else [];
         stopped := true |}
  end.

(** The [onKeyDown] of each part: only the [<article>] has one,
    [(e) => e.key === 'Enter' && onSelect()]. *)
Definition onKeyDown (key : string) (target : part) : handled :=
  match target with
  | Article =>
      {| calls := if String.eqb key "Enter" then [OnSelect] else [];
         stopped := false |}
  | _ => {| calls := []; stopped := false |}
  end.

(** The elements an event passes, from its target outwards. *)
Definition path (target : part) : list part :=
  match target with
  | Article => [Article]
  | _ => [target; Article]
  end.

(** An event bubbles along its path until a handler stops it. *)
Fixpoint bubble (handler : part -> handled) (along : list part)
    : list call :=
  match along with
  | [] => []
  | x :: rest =>
      let h := handler x in
      if stopped h then calls h
      else (calls h ++ bubble handler rest)%list
  end.

Definition click {Price} (can_share : bool) (p : Props Price)
    (target : part) : list call :=
  bubble (onClick can_share p) (path target).

Definition keydown (key : string) (target : part) : list call :=
  bubble (onKeyDown key) (path target).

End RestaurantCard.

(** ** More sample data *)

Module MoreSamples.

Import App.

Definition twin : Restaurant :=
  {| id := "twin"; name := "Twin";
     buzz_score := Num.Fin (17 # 10); sentiment := Num.Fin 7;
     mentions := Num.Fin 4; summary := "Same score as Alo";
     location := None; sources := None |}.

Definition tie_response : DataResponse :=
  {| date := "2025-01-16T11:00:00Z";
     restaurants := [Samples.alobar; Samples.alo; Samples.pai; twin] |}.

Definition sorted_response : DataResponse :=
  {| date := "2025-01-17T11:00:00Z";
     restaurants := [Samples.pai; Samples.alo; Samples.alobar] |}.

Definition session : list Interaction.event :=
  [Interaction.Settled (Rejected (NetworkError "timeout"));
   Interaction.Settled (Resolved Samples.response);
   Interaction.Clicked 2;
   Interaction.Clicked 7].

Definition counted (r : Restaurant) (n : Z) : Restaurant :=
  {| id := id r; name := name r; buzz_score := buzz_score r;
     sentiment := sentiment r; mentions := Interaction.count n;
     summary := summary r; location := location r; sources := sources r |}.

Definition rounding_response : DataResponse :=
  {| date := "2025-01-19T11:00:00Z";
     restaurants :=
       [Samples.alobar;
        {| id := "edge"; name := "Edge";
           buzz_score := Num.Fin (169 # 100); sentiment := Num.Fin 7;
           mentions := Num.Fin 1; summary := "Prints like Alo";
           location := None; sources := None |};
        Samples.alo] |}.

Definition counted_response : DataResponse :=
  {| date := "2025-01-18T11:00:00Z";
     restaurants := [counted Samples.alo 2; counted Samples.pai 3;
                     counted Samples.alobar 1] |}.

End MoreSamples.

(** * Properties of the client *)

Section NumFacts.

Import Num.

Lemma ltb_Fin (x y : Q) : ltb (Fin x) (Fin y) = true <-> (x < y)%Q.
Proof.
  simpl. rewrite Qlt_alt. destruct (x ?= y)%Q; split; congruence.
Qed.

Lemma geb_Fin (x y : Q) : geb (Fin x) (Fin y) = true <-> (y <= x)%Q.
Proof.
  unfold geb. rewrite negb_true_iff, <- not_true_iff_false, ltb_Fin.
  split; [apply Qnot_lt_le | apply Qle_not_lt].
Qed.

Lemma geb_not_nan (a b : number) :
  geb a b = true -> is_nan a = false /\ is_nan b = false.
Proof. destruct a, b; simpl; intros H; auto; discriminate. Qed.

Lemma geb_refl (a : number) : is_nan a = false -> geb a a = true.
Proof.
  destruct a; simpl; try reflexivity; try discriminate.
  intros _. apply geb_Fin, Qle_refl.
Qed.

Lemma geb_trans (a b c : number) :
  geb a b = true -> geb b c = true -> geb a c = true.
Proof.
  destruct a as [| |x|], b as [| |y|], c as [| |z|];
    try (simpl; intros; congruence).
  rewrite !geb_Fin. intros H1 H2. eapply Qle_trans; eassumption.
Qed.

(** A positive [b - a] means [b] is above [a]. *)
Lemma sub_pos_geb (a b : number) :
  ltb zero (sub b a) = true -> geb b a = true.
Proof.
  unfold zero.
  destruct a as [| |x|], b as [| |y|]; try (simpl; intros; congruence).
  change (sub (Fin y) (Fin x)) with (Fin (y - x)).
  rewrite ltb_Fin, geb_Fin. intros H. apply Qlt_le_weak.
  apply Qlt_minus_iff. exact H.
Qed.

(** A [b - a] that is not positive (negative, zero, or the NaN that is
    taken for zero) means [a] is at least [b]. *)
Lemma sub_not_pos_geb (a b : number) :
  is_nan a = false -> is_nan b = false ->
  ltb zero (sub b a) = false -> geb a b = true.
Proof.
  unfold zero.
  destruct a as [| |x|], b as [| |y|]; try (simpl; intros; congruence).
  change (sub (Fin y) (Fin x)) with (Fin (y - x)).
  intros _ _ H. apply geb_Fin, Qnot_lt_le. intros Hlt.
  apply not_true_iff_false in H. apply H, ltb_Fin.
  apply Qlt_minus_iff in Hlt. exact Hlt.
Qed.

End NumFacts.

Section SortFacts.

Import App.

Context {A : Type} (comparefn : A -> A -> number).

Lemma sort_insert_perm (x : A) (l : list A) :
  Permutation (x :: l) (sort_insert comparefn x l).
Proof.
  induction l as [|y l IH]; simpl.
  - apply Permutation_refl.
  - destruct (sort_after comparefn x y).
    + eapply perm_trans; [apply perm_swap |]. apply perm_skip, IH.
    + apply Permutation_refl.
Qed.

Lemma sort_perm (l : list A) : Permutation l (sort comparefn l).
Proof.
  induction l as [|x l IH]; simpl.
  - apply perm_nil.
  - eapply perm_trans; [apply perm_skip, IH | apply sort_insert_perm].
Qed.

Lemma sort_In (l : list A) (x : A) : In x l <-> In x (sort comparefn l).
Proof.
  split; apply Permutation_in; [| apply Permutation_sym]; apply sort_perm.
Qed.

End SortFacts.

Section DescendingFacts.

Import App.

Lemma outranks_trans (a b c : Restaurant) :
  outranks a b -> outranks b c -> outranks a c.
Proof. unfold outranks. apply geb_trans. Qed.

Lemma insert_descending (x : Restaurant) (l : list Restaurant) :
  Num.is_nan (buzz_score x) = false ->
  scores_are_numbers l ->
  StronglySorted outranks l ->
  StronglySorted outranks (sort_insert by_buzz_desc x l).
Proof.
  intros Hx Hl Hs. induction Hs as [|y l Hs IH Hy]; simpl.
  - constructor; [constructor | constructor].
  - apply Forall_cons_iff in Hl. destruct Hl as [Hyn Hl].
    unfold sort_after, by_buzz_desc.
    destruct (Num.ltb Num.zero (Num.sub (buzz_score y) (buzz_score x)))
      eqn:E.
    + constructor; [apply IH, Hl |].
      apply (Permutation_Forall (sort_insert_perm by_buzz_desc x l)).
      constructor; [exact (sub_pos_geb _ _ E) | exact Hy].
    + assert (Hxy : outranks x y) by (apply sub_not_pos_geb; assumption).
      constructor; [constructor; assumption |].
      constructor; [exact Hxy |].
      eapply Forall_impl; [exact Hy |].
      intros z Hz. eapply outranks_trans; eassumption.
Qed.

Lemma sort_descending (l : list Restaurant) :
  scores_are_numbers l -> StronglySorted outranks (sort by_buzz_desc l).
Proof.
  induction l as [|x l IH]; simpl; intros H.
  - constructor.
  - apply Forall_cons_iff in H. destruct H as [Hx Hl].
    apply insert_descending; [exact Hx | | apply IH, Hl].
    apply (Permutation_Forall (sort_perm by_buzz_desc l)). exact Hl.
Qed.

Lemma descending_adjacent (l : list Restaurant) (i : nat)
    (a b : Restaurant) :
  StronglySorted outranks l ->
  l !! i = Some a -> l !! S i = Some b -> outranks a b.
Proof.
  intros Hs. revert i. induction Hs as [|x l Hs IH Hx]; intros i Ha Hb.
  - discriminate.
  - destruct i as [|i]; simpl in *.
    + injection Ha as <-. rewrite Forall_forall in Hx. apply Hx.
      eapply list_elem_of_lookup_2. exact Hb.
    + eapply IH; eassumption.
Qed.

End DescendingFacts.

Section FetchFacts.

Import App.

(** The state a resolved request leaves. *)
Lemma fetchData_resolved (d : DataResponse) (w : World) :
  fetchData (Resolved d) w =
  (Normal tt,
   {| ui := {| st_restaurants := sort by_buzz_desc (restaurants d);
               st_selectedId := id <$> head (sort by_buzz_desc (restaurants d));
               st_lastRun := Some (date d);
               st_isLoading := false;
               st_error := None |};
      console := console w |}).
Proof. reflexivity. Qed.

(** The state a rejected request leaves. *)
Lemma fetchData_rejected (e : js_error) (w : World) :
  fetchData (Rejected e) w =
  (Normal tt,
   {| ui := {| st_restaurants := st_restaurants (ui w);
               st_selectedId := st_selectedId (ui w);
               st_lastRun := st_lastRun (ui w);
               st_isLoading := false;
               st_error := Some fetch_error_message |};
      console := (console w ++ [e])%list |}).
Proof. reflexivity. Qed.

Lemma after_fetch_restaurants (d : DataResponse) (s : State) :
  st_restaurants (after_fetch (Resolved d) s)
  = sort by_buzz_desc (restaurants d).
Proof. reflexivity. Qed.

Lemma find_head_id (l : list Restaurant) :
  List.find (id_is (id <$> head l)) l = head l.
Proof.
  destruct l as [|r l]; simpl; [reflexivity |].
  unfold id_is. simpl. rewrite String.eqb_refl. reflexivity.
Qed.

Lemma selected_after_fetch (d : DataResponse) (s : State) :
  selected (after_fetch (Resolved d) s)
  = head (sort by_buzz_desc (restaurants d)).
Proof.
  unfold selected. change (st_selectedId (after_fetch (Resolved d) s))
    with (id <$> head (sort by_buzz_desc (restaurants d))).
  rewrite after_fetch_restaurants, find_head_id.
  destruct (head (sort by_buzz_desc (restaurants d))); reflexivity.
Qed.

Lemma selected_nonempty (s : State) :
  st_restaurants s <> [] -> exists r, selected s = Some r /\ In r (st_restaurants s).
Proof.
  intros Hne. unfold selected.
  destruct (List.find (id_is (st_selectedId s)) (st_restaurants s)) as [r|]
    eqn:E.
  - exists r. split; [reflexivity |]. apply List.find_some in E. tauto.
  - destruct (st_restaurants s) as [|r l]; [congruence |].
    exists r. simpl. auto.
Qed.

Lemma selected_no_match (s : State) :
  (forall r, In r (st_restaurants s) -> id_is (st_selectedId s) r = false) ->
  selected s = head (st_restaurants s).
Proof.
  intros H. unfold selected.
  destruct (List.find (id_is (st_selectedId s)) (st_restaurants s)) as [r|]
    eqn:E.
  - apply List.find_some in E. destruct E as [Hin Hid].
    rewrite (H r Hin) in Hid. discriminate.
  - destruct (head (st_restaurants s)); reflexivity.
Qed.

Lemma selected_empty (s : State) :
  selected s = None <-> st_restaurants s = [].
Proof.
  split.
  - intros H. destruct (st_restaurants s) as [|r l] eqn:E; [reflexivity |].
    destruct (selected_nonempty s) as (r' & Hr' & _); congruence.
  - intros H. unfold selected. rewrite H. reflexivity.
Qed.

End FetchFacts.

Section RenderFacts.

Import App Render.

Lemma address_line_total (r : Restaurant) :
  exists a, address_line r = Normal a.
Proof.
  unfold address_line. destruct (location r) as [loc|]; simpl.
  - destruct (address loc) as [a|]; [| eauto].
    destruct (truthy a); eauto.
  - eauto.
Qed.

Lemma address_line_null (r : Restaurant) :
  location r = None -> address_line r = Normal None.
Proof. intros H. unfold address_line. rewrite H. reflexivity. Qed.

Lemma selected_card_total (sel : option Restaurant) :
  exists c, selected_card_of sel = Normal c.
Proof.
  destruct sel as [r|]; simpl; [| eauto].
  destruct (address_line_total r) as [a ->]. simpl. eauto.
Qed.

Lemma marker_of_null (sel : option Restaurant) (r : Restaurant) :
  location r = None -> marker_of sel r = None.
Proof. intros H. unfold marker_of. rewrite H. reflexivity. Qed.

(** Every marker comes from a record that has a location. *)
Lemma marker_origin (sel : option Restaurant) (l : list Restaurant)
    (m : Marker) :
  In m (omap (marker_of sel) l) ->
  exists r, In r l /\ location r = Some (marker_position m) /\
            marker_key m = id r.
Proof.
  intros H. apply list_elem_of_In, list_elem_of_omap in H.
  destruct H as (r & Hr & Hm). exists r.
  split; [apply list_elem_of_In, Hr |].
  unfold marker_of in Hm. destruct (location r) as [loc|]; [| discriminate].
  injection Hm as <-. simpl. auto.
Qed.

End RenderFacts.

Section ClientClaims.

Import App Render.

(** C9.  Whenever the list held by the client is non-empty the derived
    [selected] is a restaurant of the list; it is [null] only when the list
    is empty; when [selectedId] matches no record it is the first element;
    and right after a successful fetch it is the first element of the
    sorted list, whose score no other record exceeds. *)
Theorem selection_invariant (s : State) (resp : DataResponse) :
  (st_restaurants s <> [] ->
     exists r, selected s = Some r /\ In r (st_restaurants s)) /\
  (selected s = None <-> st_restaurants s = []) /\
  ((forall r, In r (st_restaurants s) -> id_is (st_selectedId s) r = false) ->
     selected s = head (st_restaurants s)) /\
  (let s' := after_fetch (Resolved resp) s in
   selected s' = head (st_restaurants s') /\
   (scores_are_numbers (restaurants resp) ->
    forall top, selected s' = Some top ->
      Forall (fun r => Num.geb (buzz_score top) (buzz_score r) = true)
             (st_restaurants s'))).
Proof.
  split; [apply selected_nonempty |].
  split; [apply selected_empty |].
  split; [apply selected_no_match |].
  cbv zeta. rewrite selected_after_fetch, after_fetch_restaurants.
  split; [reflexivity |].
  intros Hn top Htop. pose proof (sort_descending _ Hn) as Hs.
  assert (Hnn : scores_are_numbers (sort by_buzz_desc (restaurants resp)))
    by (apply (Permutation_Forall (sort_perm by_buzz_desc _)), Hn).
  destruct (sort by_buzz_desc (restaurants resp)) as [|x l];
    [discriminate |].
  injection Htop as <-. apply StronglySorted_inv in Hs.
  apply Forall_cons_iff in Hnn.
  constructor; [apply geb_refl; tauto | tauto].
Qed.

Lemma selection_invariant_witness :
  st_restaurants Samples.alo_clicked <> [] /\
  scores_are_numbers (restaurants Samples.response) /\
  (exists r, selected Samples.alo_clicked = Some r /\
             In r (st_restaurants Samples.alo_clicked)) /\
  Forall (fun r => Num.geb (buzz_score Samples.pai) (buzz_score r) = true)
    (st_restaurants
       (after_fetch (Resolved Samples.response) Samples.alo_clicked)).
Proof.
  assert (Hne : st_restaurants Samples.alo_clicked <> []) by discriminate.
  assert (Hn : scores_are_numbers (restaurants Samples.response))
    by (repeat constructor).
  destruct (selection_invariant Samples.alo_clicked Samples.response)
    as (H1 & _ & _ & _ & H5).
  split; [exact Hne |]. split; [exact Hn |].
  split; [exact (H1 Hne) |].
  exact (H5 Hn Samples.pai eq_refl).
Defined.

(** C10.  A failed fetch degrades: the routine completes normally (nothing
    escapes it), the list is the one held before (the empty one on first
    load), the error is the fixed message, and whatever the request did the
    loading flag ends false. *)
Theorem fetch_failure_degrades
    (e : js_error) (net : axios_result) (w : World) :
  (exists w',
     fetchData (Rejected e) w = (Normal tt, w') /\
     st_restaurants (ui w') = st_restaurants (ui w) /\
     st_error (ui w') = Some fetch_error_message /\
     st_isLoading (ui w') = false) /\
  (exists w', fetchData net w = (Normal tt, w') /\
              st_isLoading (ui w') = false) /\
  st_restaurants (after_fetch (Rejected e) initial) = [].
Proof.
  split; [| split].
  - eexists. rewrite fetchData_rejected. simpl. auto.
  - destruct net as [d|e'].
    + eexists. rewrite fetchData_resolved. simpl. auto.
    + eexists. rewrite fetchData_rejected. simpl. auto.
  - reflexivity.
Qed.

End ClientClaims.

Section ContractClaims.

Import Contract.

Lemma forallb_impl {A} (f g : A -> bool) (l : list A) :
  (forall x, f x = true -> g x = true) ->
  forallb f l = true -> forallb g l = true.
Proof.
  intros H. induction l as [|x l IH]; simpl; [auto |].
  rewrite !andb_true_iff. intros [Hx Hl]. auto.
Qed.

(** Whatever the contract's record type accepts, the client's accepts. *)
Lemma BuzzRecord_is_Restaurant (j : json) :
  accepts BuzzRecord j = true -> accepts Restaurant j = true.
Proof.
  destruct j as [| | | |members]; try (intros H; exact H).
  unfold BuzzRecord, Restaurant, PublishedLocation, Location.
  cbn [accepts forallb fst snd required optional].
  rewrite !andb_true_iff. intros H.
  repeat match type of H with _ /\ _ => destruct H as [? H] end.
  repeat split; try assumption.
  destruct (member "sources" members); [assumption | reflexivity].
Qed.

(** A snapshot without [sources] on a record: inside the client's type,
    outside the contract's. *)
Example sources_may_be_missing :
  accepts Restaurant Samples.record_without_sources = true /\
  accepts BuzzRecord Samples.record_without_sources = false /\
  accepts Restaurant Samples.record_with_sources = true /\
  accepts BuzzRecord Samples.record_with_sources = true.
Proof. repeat split; reflexivity. Qed.

(** C1, as stated, does not hold: the client's record type is not the
    contract's ([sources] is optional in it), and [RestaurantCard] reads
    properties the contract does not have. *)
Lemma client_types_differ_from_contract : ~ matches_contract_exactly.
Proof.
  intros [Hty _]. unfold DataResponse, Snapshot, Restaurant, BuzzRecord,
    required, optional in Hty.
  congruence.
Qed.

(** C1, amended.  The client's top-level type and its [Location] are the
    contract's; its record type has the contract's fields with their names,
    types and nullability, except that [sources] is optional, so every
    published snapshot inhabits the client's type; [App] reads contract
    fields only, and [RestaurantCard] reads, besides contract fields,
    [is_new], [cuisine_type], [price_range], [user_likes] and
    [user_saves]. *)
Theorem client_types_follow_contract :
  Location = PublishedLocation /\
  require_field "sources" Restaurant = BuzzRecord /\
  TObject [("date", required TString);
           ("restaurants",
            required (TArray (require_field "sources" Restaurant)))]
  = Snapshot /\
  (forall j, accepts Snapshot j = true -> accepts DataResponse j = true) /\
  Forall (fun f => In f (field_names BuzzRecord)) App_reads /\
  List.filter
    (fun f => negb (existsb (String.eqb f) (field_names BuzzRecord)))
    RestaurantCard_reads
  = ["is_new"; "cuisine_type"; "price_range"; "user_likes"; "user_saves"].
Proof.
  split; [reflexivity |]. split; [reflexivity |]. split; [reflexivity |].
  split; [| split; [| reflexivity]].
  - intros j. destruct j as [| | | |members]; try (intros H; exact H).
    unfold Snapshot, DataResponse.
    cbn [accepts forallb fst snd required optional].
    rewrite !andb_true_iff. intros (Hd & Hr & _).
    split; [exact Hd |]. split; [| reflexivity].
    destruct (member "restaurants" members) as [v|]; [| discriminate].
    destruct v as [| | |items|]; try discriminate.
    revert Hr. apply forallb_impl. intros x. apply BuzzRecord_is_Restaurant.
  - unfold App_reads.
    repeat (apply Forall_cons; split; [simpl; tauto |]). apply Forall_nil.
    exact I.
Qed.

End ContractClaims.

(** * Properties of the pipeline *)

Section NormalizeFacts.

Import Resolver.

(** A character that normalization writes is one it keeps unchanged. *)
Lemma classify_Word (c c' : ascii) :
  classify c = Word c' -> classify c' = Word c'.
Proof.
  intros H.
  destruct c as [[] [] [] [] [] [] [] []]; vm_compute in H;
    solve [discriminate H | injection H as <-; reflexivity].
Qed.

Lemma classify_space : classify " " = Space.
Proof. reflexivity. Qed.

(** What a scan wrote is left as it is by a second scan, whether the second
    one starts in the state of the first or, for the text after a gap, in
    the middle of a word. *)
Lemma normalize_from_fixed (s : string) :
  normalize_from AtStart (normalize_from AtStart s) = normalize_from AtStart s
  /\ normalize_from InWord (normalize_from InWord s) = normalize_from InWord s
  /\ normalize_from AfterGap (normalize_from AfterGap s)
     = normalize_from AfterGap s
  /\ normalize_from InWord (normalize_from AfterGap s)
     = normalize_from AfterGap s.
Proof.
  induction s as [|c s (IH1 & IH2 & IH3 & IH4)]; [simpl; auto |].
  cbn [normalize_from]. destruct (classify c) as [c'| |] eqn:E.
  - apply classify_Word in E.
    repeat split; cbn [normalize_from]; rewrite ?classify_space, ?E;
      cbn [normalize_from]; rewrite ?E; congruence.
  - auto.
  - auto.
Qed.

(** A character that normalization writes does not start an accented
    letter. *)
Lemma classify_Word_plain (c c' : ascii) :
  classify c = Word c' -> is_lead c' = false.
Proof.
  intros H.
  destruct c as [[] [] [] [] [] [] [] []]; vm_compute in H;
    solve [discriminate H | injection H as <-; reflexivity].
Qed.

(** What a scan wrote has no accented letter left to fold. *)
Lemma fold_diacritics_normalized (s : string) (st : scan) :
  fold_diacritics (normalize_from st s) = normalize_from st s.
Proof.
  revert st. induction s as [|c s IH]; intros st; [reflexivity |].
  cbn [normalize_from]. destruct (classify c) as [c'| |] eqn:E.
  - apply classify_Word_plain in E.
    destruct st; cbn [fold_diacritics]; rewrite ?E;
      change (is_lead " ") with false; cbn iota;
      cbn [fold_diacritics]; rewrite ?E, IH; reflexivity.
  - destruct st; apply IH.
  - apply IH.
Qed.

Lemma normalize_idempotent (s : string) :
  normalize (normalize s) = normalize s.
Proof.
  unfold normalize. rewrite fold_diacritics_normalized.
  apply normalize_from_fixed.
Qed.

End NormalizeFacts.

Section MatchFacts.

Import Resolver.

Variable threshold : nat.

Lemma matches_refl (a : string) : matches threshold a a = true.
Proof. unfold matches. rewrite String.eqb_refl. reflexivity. Qed.

Lemma matches_sym (a b : string) :
  matches threshold a b = matches threshold b a.
Proof.
  unfold matches. rewrite (String.eqb_sym a b).
  destruct (String.eqb b a); simpl; [reflexivity |]. apply orb_comm.
Qed.

Lemma best_match_Some (n k : string) (ks : list string) :
  best_match threshold n ks = Some k ->
  In k ks /\ matches threshold n k = true.
Proof.
  revert k. induction ks as [|k0 ks IH]; simpl; intros k H; [discriminate |].
  destruct (matches threshold n k0) eqn:E.
  - destruct (best_match threshold n ks) as [k'|].
    + destruct (String.length k0 <? String.length k')%nat.
      * destruct (IH k H). auto.
      * injection H as <-. auto.
    + injection H as <-. auto.
  - destruct (IH k H). auto.
Qed.

Lemma best_match_None (n : string) (ks : list string) :
  best_match threshold n ks = None ->
  forall k, In k ks -> matches threshold n k = false.
Proof.
  induction ks as [|k0 ks IH]; simpl; intros H k Hk; [tauto |].
  destruct (matches threshold n k0) eqn:E.
  - destruct (best_match threshold n ks) as [k'|]; [| discriminate].
    destruct (String.length k0 <? String.length k')%nat; discriminate.
  - destruct Hk as [<- | Hk]; [exact E | exact (IH H k Hk)].
Qed.

(** A name that is itself an identity, and matches no other one, resolves
    to itself. *)
Lemma best_match_own (k : string) (ks : list string) :
  In k ks ->
  (forall k', In k' ks -> matches threshold k k' = true -> k' = k) ->
  best_match threshold k ks = Some k.
Proof.
  induction ks as [|k0 ks IH]; simpl; intros Hin Hown; [tauto |].
  destruct (matches threshold k k0) eqn:E.
  - assert (k0 = k) as -> by (apply Hown; auto).
    destruct (best_match threshold k ks) as [k'|] eqn:B; [| reflexivity].
    apply best_match_Some in B. destruct B as [Hk' Hm].
    assert (k' = k) as -> by (apply Hown; auto).
    rewrite Nat.ltb_irrefl. reflexivity.
  - apply IH.
    + destruct Hin as [-> | Hin]; [| exact Hin].
      rewrite matches_refl in E. discriminate.
    + intros k' Hk'. apply Hown. auto.
Qed.

End MatchFacts.

Section ResolverFacts.

Import Resolver.

Variable threshold : nat.

Lemma keys_append_to (k : string) (m : Mention) (g : groups) :
  keys (append_to k m g) = keys g.
Proof.
  induction g as [|[k' ms] g IH]; simpl; [reflexivity |].
  destruct (String.eqb k k'); simpl; [reflexivity |].
  f_equal. exact IH.
Qed.

Lemma keys_canonical_groups (g : groups) : keys (canonical_groups g) = keys g.
Proof.
  unfold keys, canonical_groups. rewrite List.map_map. reflexivity.
Qed.

Lemma canonical_groups_append_to (k : string) (m : Mention) (g : groups) :
  append_to k (rename k m) (canonical_groups g)
  = canonical_groups (append_to k m g).
Proof.
  induction g as [|[k' ms] g IH]; simpl; [reflexivity |].
  destruct (String.eqb k k') eqn:E; simpl.
  - apply String.eqb_eq in E. subst k'.
    rewrite List.map_app. reflexivity.
  - f_equal. exact IH.
Qed.

Lemma canonical_groups_snoc (g : groups) (n : string) (m : Mention) :
  (canonical_groups g ++ [(n, [rename n m])])%list
  = canonical_groups (g ++ [(n, [m])])%list.
Proof. unfold canonical_groups. rewrite List.map_app. reflexivity. Qed.

Lemma well_separated_nil : well_separated threshold [].
Proof. split; simpl; intros; tauto. Qed.

Lemma add_mention_well_separated (g : groups) (m : Mention) :
  well_separated threshold g ->
  well_separated threshold (add_mention threshold g m).
Proof.
  intros [Hn Hs]. unfold add_mention.
  destruct (best_match threshold (normalize (restaurant_name_guess m))
              (keys g)) as [k|] eqn:B.
  - unfold well_separated. rewrite keys_append_to. auto.
  - pose proof (best_match_None threshold _ _ B) as Hnone.
    unfold well_separated, keys. rewrite List.map_app. simpl.
    fold (keys g). split.
    + intros k Hk. apply List.in_app_or in Hk.
      destruct Hk as [Hk | [<- | []]]; [auto | apply normalize_idempotent].
    + intros k k' Hk Hk' Hm.
      apply List.in_app_or in Hk. apply List.in_app_or in Hk'.
      destruct Hk as [Hk | [<- | []]], Hk' as [Hk' | [<- | []]].
      * auto.
      * rewrite matches_sym, (Hnone k Hk) in Hm. discriminate.
      * rewrite (Hnone k' Hk') in Hm. discriminate.
      * reflexivity.
Qed.

(** One step of the second resolution, on the canonical name the first one
    gave, does to the renamed grouping what the first did to the
    original. *)
Lemma add_mention_canonical (g : groups) (m : Mention) :
  well_separated threshold g ->
  add_mention threshold (canonical_groups g)
    (rename (canonical_of threshold g m) m)
  = canonical_groups (add_mention threshold g m)
  /\ canonical_of threshold (canonical_groups g)
       (rename (canonical_of threshold g m) m)
     = canonical_of threshold g m.
Proof.
  intros [Hn Hs]. unfold add_mention, canonical_of.
  rewrite keys_canonical_groups. simpl restaurant_name_guess.
  destruct (best_match threshold (normalize (restaurant_name_guess m))
              (keys g)) as [k|] eqn:B.
  - destruct (best_match_Some threshold _ _ _ B) as [Hk _].
    rewrite (Hn k Hk), (best_match_own threshold k (keys g) Hk).
    + split; [apply canonical_groups_append_to | reflexivity].
    + intros k' Hk'. apply Hs; assumption.
  - rewrite normalize_idempotent, B.
    split; [apply canonical_groups_snoc | reflexivity].
Qed.

Lemma resolve_from_canonical (ms : list Mention) (g : groups) :
  well_separated threshold g ->
  resolve_from threshold (canonical_groups g)
    (canonicalize_from threshold g ms)
  = canonical_groups (resolve_from threshold g ms)
  /\ canonicalize_from threshold (canonical_groups g)
       (canonicalize_from threshold g ms)
     = canonicalize_from threshold g ms.
Proof.
  revert g. induction ms as [|m ms IH]; intros g Hg; [split; reflexivity |].
  destruct (add_mention_canonical g m Hg) as [Ha Hc].
  destruct (IH _ (add_mention_well_separated g m Hg)) as [IH1 IH2].
  unfold resolve_from in *. simpl. rewrite Ha, Hc. split.
  - exact IH1.
  - f_equal. exact IH2.
Qed.

Lemma resolve_from_well_separated (ms : list Mention) (g : groups) :
  well_separated threshold g ->
  well_separated threshold (resolve_from threshold g ms).
Proof.
  revert g. induction ms as [|m ms IH]; intros g Hg; [exact Hg |].
  apply IH, add_mention_well_separated, Hg.
Qed.

End ResolverFacts.

Section ResolverClaims.

Import Resolver.

(** C7.  Resolving the mentions of a run again, under the canonical names
    the first resolution gave them, yields the same identities with the same
    mentions in the same order, and gives every mention the canonical name
    it already has. *)
Theorem resolve_idempotent (threshold : nat) (ms : list Mention) :
  resolve threshold (canonicalize threshold ms)
  = canonical_groups (resolve threshold ms)
  /\ keys (resolve threshold (canonicalize threshold ms))
     = keys (resolve threshold ms)
  /\ canonicalize threshold (canonicalize threshold ms)
     = canonicalize threshold ms.
Proof.
  destruct (resolve_from_canonical threshold ms [])
    as [H1 H2]; [apply well_separated_nil |].
  change (canonical_groups []) with (@nil (string * list Mention)) in H1, H2.
  unfold resolve, canonicalize. rewrite H1, H2, keys_canonical_groups. auto.
Qed.

End ResolverClaims.


Section ScoreClaims.

Import Score.

Lemma tenth_nonneg (s : Q) : (0 <= s -> 0 <= s / 10)%Q.
Proof.
  intros H. unfold Qdiv. apply Qmult_le_0_compat; [exact H | discriminate].
Qed.

Lemma buzz_score_mentions_mono (m1 m2 : nat) (s : Q) :
  (0 <= s)%Q -> (m1 <= m2)%nat ->
  (buzz_score m1 s <= buzz_score m2 s)%Q.
Proof.
  intros Hs Hm. unfold buzz_score.
  apply Qmult_le_compat_r; [| apply tenth_nonneg, Hs].
  rewrite <- Zle_Qle. lia.
Qed.

Lemma buzz_score_sentiment_mono (m : nat) (s1 s2 : Q) :
  (s1 <= s2)%Q -> (buzz_score m s1 <= buzz_score m s2)%Q.
Proof.
  intros Hs. unfold buzz_score.
  rewrite (Qmult_comm _ (s1 / 10)), (Qmult_comm _ (s2 / 10)).
  apply Qmult_le_compat_r.
  - unfold Qdiv. apply Qmult_le_compat_r; [exact Hs | discriminate].
  - change 0%Q with (inject_Z 0). rewrite <- Zle_Qle. lia.
Qed.

(** C4.  The score never decreases with more mentions at a fixed sentiment
    of the range [0,10], in particular from 3 to 5 mentions; it never
    decreases with a higher sentiment at a fixed number of mentions, in
    particular from 5 to 9; and equal inputs give equal scores. *)
Theorem buzz_score_is_monotonic
    (m m1 m2 : nat) (s s1 s2 : Q) :
  valid_sentiment s -> (m1 <= m2)%nat -> (s1 <= s2)%Q ->
  (buzz_score m1 s <= buzz_score m2 s)%Q /\
  (buzz_score 3 s <= buzz_score 5 s)%Q /\
  (buzz_score m s1 <= buzz_score m s2)%Q /\
  (buzz_score m 5 <= buzz_score m 9)%Q /\
  (forall m' s', m' = m -> (s' == s)%Q ->
     (buzz_score m' s' == buzz_score m s)%Q).
Proof.
  intros [Hs _] Hm Hle.
  split; [apply buzz_score_mentions_mono; assumption |].
  split; [apply buzz_score_mentions_mono; [assumption | lia] |].
  split; [apply buzz_score_sentiment_mono; assumption |].
  split; [apply buzz_score_sentiment_mono; discriminate |].
  intros m' s' -> Heq. unfold buzz_score. rewrite Heq. reflexivity.
Qed.

Lemma buzz_score_is_monotonic_witness :
  valid_sentiment (17 # 2) /\ (2 <= 4)%nat /\ (6 <= 8)%Q /\
  (buzz_score 2 (17 # 2) <= buzz_score 4 (17 # 2))%Q /\
  (buzz_score 2 6 <= buzz_score 2 8)%Q.
Proof.
  assert (Hv : valid_sentiment (17 # 2)) by (split; discriminate).
  assert (Hm : (2 <= 4)%nat) by lia.
  assert (Hs : (6 <= 8)%Q) by discriminate.
  destruct (buzz_score_is_monotonic 2 2 4 (17 # 2) 6 8 Hv Hm Hs)
    as (H1 & _ & H3 & _).
  repeat split; assumption.
Defined.

End ScoreClaims.

Section PublisherFacts.

Import Publisher.

Lemma string_length_append (a b : string) :
  String.length (a ++ b) = (String.length a + String.length b)%nat.
Proof.
  induction a as [|c a IH]; [reflexivity |].
  change (S (String.length (a ++ b))
          = S (String.length a + String.length b)).
  f_equal. exact IH.
Qed.

Lemma string_append_empty (a : string) : (a ++ "")%string = a.
Proof.
  induction a as [|c a IH]; [reflexivity |].
  change (String c (a ++ "") = String c a). f_equal. exact IH.
Qed.

Lemma string_append_assoc (a b c : string) :
  ((a ++ b) ++ c)%string = (a ++ (b ++ c))%string.
Proof.
  induction a as [|x a IH]; [reflexivity |].
  change (String x ((a ++ b) ++ c) = String x (a ++ (b ++ c))).
  f_equal. exact IH.
Qed.

(** The temporary key is never the destination key. *)
Lemma temp_key_fresh (dest : string) : temp_key dest <> dest.
Proof.
  intros H. apply (f_equal String.length) in H. unfold temp_key in H.
  rewrite string_length_append in H. simpl in H. lia.
Qed.

Lemma read_insert_temp (dest content : string) (st : Store) :
  read dest (<[temp_key dest := content]> st) = read dest st.
Proof. unfold read. apply lookup_insert_ne, temp_key_fresh. Qed.

(** Staging writes under the temporary key only: what a consumer reads
    stays what it was, in every store passed through. *)
Lemma stage_invisible (faults : nat -> bool) (dest : string)
    (chunks : list string) (i : nat) (st : Store) :
  Forall (fun s => read dest s = read dest st)
         (snd (stage faults i (temp_key dest) chunks st)) /\
  (forall st1, fst (stage faults i (temp_key dest) chunks st) = Some st1 ->
     read dest st1 = read dest st).
Proof.
  revert i st. induction chunks as [|c chunks IH]; intros i st; simpl.
  - split; [constructor |]. intros st1 H. injection H as <-. reflexivity.
  - destruct (faults i); simpl.
    + split; [constructor | discriminate].
    + specialize (IH (S i)
        (<[temp_key dest :=
             (default "" (st !! temp_key dest) ++ c)%string]> st)).
      destruct (stage faults (S i) (temp_key dest) chunks _) as [r seen].
      simpl in *. destruct IH as [IH1 IH2].
      rewrite read_insert_temp in IH2.
      split.
      * constructor; [apply read_insert_temp |].
        eapply Forall_impl; [exact IH1 |]. intros s Hs.
        rewrite Hs. apply read_insert_temp.
      * exact IH2.
Qed.

(** A completed staging leaves the whole artifact under the temporary
    key. *)
Lemma stage_complete (faults : nat -> bool) (tmp : string)
    (chunks : list string) (i : nat) (st st1 : Store) (sofar : string) :
  st !! tmp = Some sofar ->
  fst (stage faults i tmp chunks st) = Some st1 ->
  st1 !! tmp = Some (sofar ++ artifact chunks)%string.
Proof.
  revert i st sofar. induction chunks as [|c chunks IH];
    intros i st sofar Hst; simpl.
  - intros H. injection H as <-. rewrite Hst.
    unfold artifact. simpl. now rewrite string_append_empty.
  - destruct (faults i); simpl; [discriminate |].
    specialize (IH (S i) (<[tmp := (default "" (st !! tmp) ++ c)%string]> st)
                  (sofar ++ c)%string).
    destruct (stage faults (S i) tmp chunks _) as [r seen]. simpl in *.
    intros H. rewrite IH; [| rewrite Hst; apply lookup_insert_eq | exact H].
    f_equal. apply string_append_assoc.
Qed.

(** Staging fails exactly when one of its operations does. *)
Lemma stage_fails_iff (faults : nat -> bool) (tmp : string)
    (chunks : list string) (i : nat) (st : Store) :
  fst (stage faults i tmp chunks st) = None <->
  exists k, (k < length chunks)%nat /\ faults (i + k)%nat = true.
Proof.
  revert i st. induction chunks as [|c chunks IH]; intros i st; simpl.
  - split; [discriminate | intros (k & Hk & _); lia].
  - destruct (faults i) eqn:E; simpl.
    + split; [| reflexivity]. intros _. exists 0%nat.
      rewrite Nat.add_0_r. split; [lia | exact E].
    + specialize (IH (S i) (<[tmp := (default "" (st !! tmp) ++ c)%string]> st)).
      destruct (stage faults (S i) tmp chunks _) as [r seen]. simpl in *.
      rewrite IH. split.
      * intros (k & Hk & Hf). exists (S k).
        rewrite Nat.add_succ_r. split; [lia | exact Hf].
      * intros (k & Hk & Hf). destruct k as [|k].
        -- rewrite Nat.add_0_r in Hf. congruence.
        -- exists k. rewrite Nat.add_succ_r in Hf. split; [lia | exact Hf].
Qed.

Lemma last_in_or_default {A} (l : list A) (d : A) (P : A -> Prop) :
  P d -> Forall P l -> P (List.last l d).
Proof.
  intros Hd Hl. revert d Hd. induction Hl as [|x l Hx Hl IH]; intros d Hd.
  - exact Hd.
  - destruct l as [|y l]; [exact Hx |].
    change (P (List.last (y :: l) d)). apply IH, Hd.
Qed.

End PublisherFacts.

Section PublisherClaims.

Import Publisher.

(** C5.  Whatever operations fail, a consumer reading the destination
    during a run of the publisher finds the previous snapshot or the whole
    new artifact, never a part of it; a run in which an operation fails ends
    in [PublishFailure] with the previous snapshot still the one read, then
    and at every moment before; a run without failure ends with the new
    artifact published. *)
Theorem publish_is_atomic (faults : nat -> bool) (dest : string)
    (chunks : list string) (st : Store) :
  let r := publish faults dest chunks st in
  Forall (fun s => read dest s = read dest st \/
                   read dest s = Some (artifact chunks)) (observable r) /\
  (result r = PublishFailure ->
     read dest (final r) = read dest st /\
     Forall (fun s => read dest s = read dest st) (observable r)) /\
  (result r = Published -> read dest (final r) = Some (artifact chunks)) /\
  (result r = PublishFailure <->
     exists i, (i <= S (length chunks))%nat /\ faults i = true).
Proof.
  cbv zeta. unfold publish.
  destruct (faults 0%nat) eqn:F0.
  { simpl. repeat split; auto; try discriminate.
    exists 0%nat. split; [lia | exact F0]. }
  pose proof (stage_invisible faults dest chunks 1
                (<[temp_key dest := ""]> st)) as [Hseen Hfin].
  pose proof (stage_complete faults (temp_key dest) chunks 1
                (<[temp_key dest := ""]> st)) as Hcomp.
  pose proof (stage_fails_iff faults (temp_key dest) chunks 1
                (<[temp_key dest := ""]> st)) as Hfail.
  destruct (stage faults 1 (temp_key dest) chunks
              (<[temp_key dest := ""]> st)) as [[st1|] seen].
  - simpl in Hseen, Hfin, Hcomp, Hfail.
    assert (Hsame : Forall (fun s => read dest s = read dest st)
                      (st :: <[temp_key dest := ""]> st :: seen)).
    { constructor; [reflexivity |].
      constructor; [apply read_insert_temp |].
      eapply Forall_impl; [exact Hseen |]. intros s Hs.
      rewrite Hs. apply read_insert_temp. }
    assert (H1 : read dest st1 = read dest st).
    { rewrite (Hfin st1 eq_refl). apply read_insert_temp. }
    destruct (faults (S (length chunks))) eqn:FL; simpl.
    + split; [eapply Forall_impl; [exact Hsame | intros s Hs; auto] |].
      split; [auto |]. split; [discriminate |].
      split; [| reflexivity]. intros _. exists (S (length chunks)). auto.
    + assert (H2 : read dest (finalize (temp_key dest) dest st1)
                   = Some (artifact chunks)).
      { unfold finalize.
        rewrite (Hcomp st1 "" (lookup_insert_eq _ _ _) eq_refl).
        unfold read. apply lookup_insert_eq. }
      split.
      { change (Forall
                  (fun s => read dest s = read dest st \/
                            read dest s = Some (artifact chunks))
                  ((st :: <[temp_key dest := ""]> st :: seen)
                   ++ [finalize (temp_key dest) dest st1])).
        apply Forall_app. split.
        - eapply Forall_impl; [exact Hsame | intros s Hs; auto].
        - constructor; [auto | constructor]. }
      split; [discriminate |]. split; [auto |].
      split; [discriminate |]. intros (i & Hi & Hf). exfalso.
      destruct i as [|i]; [congruence |].
      destruct (Nat.eq_dec i (length chunks)) as [-> | Hne]; [congruence |].
      assert (Hex : exists k, (k < length chunks)%nat /\
                              faults (1 + k)%nat = true)
        by (exists i; split; [lia | exact Hf]).
      apply Hfail in Hex. discriminate.
  - simpl in Hseen, Hfail. simpl.
    assert (Hsame : Forall (fun s => read dest s = read dest st)
                      (st :: <[temp_key dest := ""]> st :: seen)).
    { constructor; [reflexivity |].
      constructor; [apply read_insert_temp |].
      eapply Forall_impl; [exact Hseen |]. intros s Hs.
      rewrite Hs. apply read_insert_temp. }
    split; [eapply Forall_impl; [exact Hsame | intros s Hs; auto] |].
    split.
    { intros _. split; [| exact Hsame].
      apply (last_in_or_default seen _
               (fun s => read dest s = read dest st)).
      - apply read_insert_temp.
      - eapply Forall_impl; [exact Hseen |]. intros s Hs.
        rewrite Hs. apply read_insert_temp. }
    split; [discriminate |]. split; [| reflexivity]. intros _.
    destruct (proj1 Hfail eq_refl) as (k & Hk & Hf).
    exists (S k). split; [lia | exact Hf].
Qed.

Lemma publish_is_atomic_witness :
  result (publish Samples.third_fails "latest.json" ["ab"; "cd"]
            Samples.live_store) = PublishFailure /\
  read "latest.json"
    (final (publish Samples.third_fails "latest.json" ["ab"; "cd"]
              Samples.live_store)) = Some "old" /\
  read "latest.json"
    (final (publish Samples.never_fails "latest.json" ["ab"; "cd"]
              Samples.live_store)) = Some "abcd".
Proof.
  destruct (publish_is_atomic Samples.third_fails "latest.json"
              ["ab"; "cd"] Samples.live_store) as (_ & Hf & _ & _).
  destruct (publish_is_atomic Samples.never_fails "latest.json"
              ["ab"; "cd"] Samples.live_store) as (_ & _ & Hp & _).
  split; [reflexivity |].
  split; [exact (proj1 (Hf eq_refl)) | exact (Hp eq_refl)].
Defined.

End PublisherClaims.

Section GeocoderFacts.

Import Geocoder.

Variable p : provider.
Variable retries : nat.









End GeocoderFacts.

Section GeocoderClaims.

Import Geocoder.


(** A miss that the provider answers only at the second attempt is cached
    as null with two requests made, and the count stays two. *)
Example retried_miss_is_cached_at_two_calls :
  geocode Samples.flaky 2 "pai" empty
  = (None, {| durable := {["pai" := None]};
              run_nulls := ∅;
              calls := ["pai"; "pai"] |}) /\
  external_calls "pai"
    (snd (geocode Samples.flaky 2 "pai"
            (snd (geocode Samples.flaky 2 "pai" empty)))) = 2%nat.
Proof. split; reflexivity. Qed.



End GeocoderClaims.

(** * Further properties of the client *)

Section OrderFacts.

Import App Interaction.

Lemma geb_sub_not_pos (a b : number) :
  Num.geb a b = true -> Num.ltb Num.zero (Num.sub b a) = false.
Proof.
  destruct a as [| |x|], b as [| |y|];
    try reflexivity; try (simpl; discriminate).
  intros H. apply geb_Fin in H.
  change (Num.sub (Num.Fin y) (Num.Fin x)) with (Num.Fin (y - x)).
  apply not_true_iff_false. unfold Num.zero. rewrite ltb_Fin.
  intros Hlt. apply (Qle_not_lt _ _ H). apply Qlt_minus_iff. exact Hlt.
Qed.

(** A record that sorts after another has the strictly lower score. *)
Lemma sort_after_not_outranks (x y : Restaurant) :
  sort_after by_buzz_desc x y = true ->
  Num.geb (buzz_score x) (buzz_score y) = false.
Proof.
  unfold sort_after, by_buzz_desc. intros H.
  destruct (Num.geb (buzz_score x) (buzz_score y)) eqn:E; [| reflexivity].
  rewrite (geb_sub_not_pos _ _ E) in H. discriminate.
Qed.

Lemma tied_not_after (k x y : Restaurant) :
  tied k x = true -> tied k y = true ->
  sort_after by_buzz_desc x y = false.
Proof.
  unfold tied. rewrite !andb_true_iff. intros [_ Hx] [Hy _].
  destruct (sort_after by_buzz_desc x y) eqn:E; [| reflexivity].
  apply sort_after_not_outranks in E.
  rewrite (geb_trans _ _ _ Hx Hy) in E. discriminate.
Qed.

Lemma insert_keeps_ties (k x : Restaurant) (l : list Restaurant) :
  List.filter (tied k) (sort_insert by_buzz_desc x l)
  = List.filter (tied k) (x :: l).
Proof.
  induction l as [|y l IH]; [reflexivity |].
  cbn [sort_insert]. destruct (sort_after by_buzz_desc x y) eqn:E;
    [| reflexivity].
  cbn [List.filter] in *. rewrite IH.
  destruct (tied k x) eqn:Hx, (tied k y) eqn:Hy; try reflexivity.
  rewrite (tied_not_after k x y Hx Hy) in E. discriminate.
Qed.

Lemma sort_keeps_ties (k : Restaurant) (l : list Restaurant) :
  List.filter (tied k) (sort by_buzz_desc l) = List.filter (tied k) l.
Proof.
  induction l as [|x l IH]; [reflexivity |].
  cbn [sort]. rewrite insert_keeps_ties. cbn [List.filter].
  rewrite IH. reflexivity.
Qed.

Lemma insert_on_top (x : Restaurant) (l : list Restaurant) :
  Forall (outranks x) l -> sort_insert by_buzz_desc x l = x :: l.
Proof.
  intros H. destruct l as [|y l]; [reflexivity |].
  apply Forall_cons_iff in H. destruct H as [Hy _].
  cbn [sort_insert]. unfold sort_after, by_buzz_desc.
  rewrite (geb_sub_not_pos _ _ Hy). reflexivity.
Qed.

Lemma sort_sorted (l : list Restaurant) :
  StronglySorted outranks l -> sort by_buzz_desc l = l.
Proof.
  induction 1 as [|x l Hs IH Hx]; [reflexivity |].
  cbn [sort]. rewrite IH. apply insert_on_top, Hx.
Qed.

Lemma NoDup_ids (l : list Restaurant) (a b : Restaurant) :
  NoDup (List.map id l) -> In a l -> In b l -> id a = id b -> a = b.
Proof.
  induction l as [|x l IH]; simpl; intros Hnd Ha Hb Heq; [tauto |].
  apply NoDup_cons in Hnd. destruct Hnd as [Hx Hnd].
  destruct Ha as [-> | Ha], Hb as [-> | Hb].
  - reflexivity.
  - exfalso. apply Hx. rewrite Heq.
    apply list_elem_of_In, List.in_map, Hb.
  - exfalso. apply Hx. rewrite <- Heq.
    apply list_elem_of_In, List.in_map, Ha.
  - apply IH; assumption.
Qed.

End OrderFacts.

Section OrderProperties.

Import App Render Interaction.

(** X1.  The sort is stable: the records whose score ties with that of a
    given record are displayed in the order the snapshot lists them. *)
Theorem ties_keep_snapshot_order
    (resp : DataResponse) (s : State) (k : Restaurant) :
  scores_are_numbers (restaurants resp) ->
  List.filter (tied k) (st_restaurants (after_fetch (Resolved resp) s))
  = List.filter (tied k) (restaurants resp).
Proof.
  intros _. rewrite after_fetch_restaurants. apply sort_keeps_ties.
Qed.

Lemma ties_keep_snapshot_order_witness :
  scores_are_numbers (restaurants MoreSamples.tie_response) /\
  List.map id
    (List.filter (tied Samples.alo)
       (st_restaurants
          (after_fetch (Resolved MoreSamples.tie_response) initial)))
  = ["alo"; "twin"].
Proof.
  assert (H : scores_are_numbers (restaurants MoreSamples.tie_response))
    by (repeat constructor).
  split; [exact H |].
  rewrite (ties_keep_snapshot_order MoreSamples.tie_response initial
             Samples.alo H).
  reflexivity.
Defined.

(** X2.  A snapshot that already lists its records by descending score is
    displayed in exactly its own order. *)
Theorem sorted_snapshot_is_kept (resp : DataResponse) (s : State) :
  StronglySorted outranks (restaurants resp) ->
  st_restaurants (after_fetch (Resolved resp) s) = restaurants resp.
Proof.
  intros H. rewrite after_fetch_restaurants. apply sort_sorted, H.
Qed.

Lemma sorted_snapshot_is_kept_witness :
  StronglySorted outranks (restaurants MoreSamples.sorted_response) /\
  st_restaurants (after_fetch (Resolved MoreSamples.sorted_response) initial)
  = [Samples.pai; Samples.alo; Samples.alobar].
Proof.
  assert (H : StronglySorted outranks
                (restaurants MoreSamples.sorted_response))
    by (repeat constructor).
  split; [exact H |].
  exact (sorted_snapshot_is_kept MoreSamples.sorted_response initial H).
Defined.

End OrderProperties.

Section SelectionProperties.

Import App Render Interaction.

Lemma after_click_state (r : Restaurant) (s : State) :
  after_click r s
  = {| st_restaurants := st_restaurants s;
       st_selectedId := Some (id r);
       st_lastRun := st_lastRun s;
       st_isLoading := st_isLoading s;
       st_error := st_error s |}.
Proof. reflexivity. Qed.

Lemma find_by_id (l : list Restaurant) (r : Restaurant) :
  In r l ->
  exists r', List.find (id_is (Some (id r))) l = Some r' /\
             In r' l /\ id r' = id r.
Proof.
  intros Hin.
  destruct (List.find (id_is (Some (id r))) l) as [r'|] eqn:E.
  - exists r'. apply List.find_some in E. destruct E as [Hin' Hid].
    simpl in Hid. apply String.eqb_eq in Hid. auto.
  - apply (List.find_none _ _ E) in Hin. simpl in Hin.
    rewrite String.eqb_refl in Hin. discriminate.
Qed.

(** X3.  A click on the card or the marker of a displayed record selects the
    first record of the list that has its id, leaves the list as it is, and
    highlights exactly the cards with that id; when the ids of the list are
    all different, the record clicked is the one selected and its card the
    only one highlighted. *)
Theorem click_selects_by_id (s : State) (r : Restaurant) :
  In r (st_restaurants s) ->
  let s' := after_click r s in
  st_restaurants s' = st_restaurants s /\
  (exists r', selected s' = Some r' /\ In r' (st_restaurants s) /\
              id r' = id r /\
              List.find (fun x => String.eqb (id x) (id r)) (st_restaurants s)
              = Some r') /\
  (forall x, is_selected (selected s') x = true <-> id x = id r) /\
  (NoDup (List.map id (st_restaurants s)) ->
   selected s' = Some r /\
   forall x, In x (st_restaurants s) ->
     (card_selected (card_of (selected s') x) = true <-> x = r)).
Proof.
  intros Hin s'. subst s'. rewrite after_click_state.
  destruct (find_by_id _ r Hin) as (r' & Hfind & Hin' & Hid).
  assert (Hsel : selected
            {| st_restaurants := st_restaurants s;
               st_selectedId := Some (id r);
               st_lastRun := st_lastRun s;
               st_isLoading := st_isLoading s;
               st_error := st_error s |} = Some r').
  { unfold selected. cbn [st_restaurants st_selectedId].
    rewrite Hfind. reflexivity. }
  rewrite Hsel. cbn [st_restaurants].
  assert (Hhl : forall x, is_selected (Some r') x = true <-> id x = id r).
  { intros x. unfold is_selected. simpl. rewrite String.eqb_eq, Hid.
    split; congruence. }
  split; [reflexivity |]. split; [| split; [exact Hhl |]].
  - exists r'. repeat split; assumption.
  - intros Hnd.
    assert (r' = r) as -> by (eapply NoDup_ids; eassumption).
    split; [reflexivity |]. intros x Hx. cbn [card_of card_selected].
    rewrite Hhl. split; [| congruence].
    intros Hxid. eapply NoDup_ids; eassumption.
Qed.

Lemma click_selects_by_id_witness :
  In Samples.alobar (st_restaurants Samples.loaded) /\
  NoDup (List.map id (st_restaurants Samples.loaded)) /\
  selected (after_click Samples.alobar Samples.loaded) = Some Samples.alobar.
Proof.
  assert (Hin : In Samples.alobar (st_restaurants Samples.loaded))
    by (simpl; auto).
  assert (Hnd : NoDup (List.map id (st_restaurants Samples.loaded))).
  { repeat (apply NoDup_cons; split;
            [intros H; repeat (apply elem_of_cons in H;
                               destruct H as [H | H]; [discriminate H |]);
             apply elem_of_nil in H; exact H |]).
    apply NoDup_nil. exact I. }
  destruct (click_selects_by_id Samples.loaded Samples.alobar Hin)
    as (_ & _ & _ & Huniq).
  split; [exact Hin |]. split; [exact Hnd |].
  exact (proj1 (Huniq Hnd)).
Defined.

Lemma step_keeps_order (s : State) (e : event) :
  numeric e ->
  StronglySorted outranks (st_restaurants s) ->
  StronglySorted outranks (st_restaurants (step s e)).
Proof.
  intros Hn Hs. destruct e as [[d|err]|i]; cbn [step numeric] in *.
  - rewrite after_fetch_restaurants. apply sort_descending, Hn.
  - exact Hs.
  - destruct (st_restaurants s !! i); [| exact Hs].
    rewrite after_click_state. exact Hs.
Qed.

Lemma step_keeps_selection (s : State) (e : event) :
  selection_valid s -> selection_valid (step s e).
Proof.
  intros Hv. destruct e as [[d|err]|i]; cbn [step].
  - unfold selection_valid. rewrite after_fetch_restaurants.
    change (st_selectedId (after_fetch (Resolved d) s))
      with (id <$> head (sort by_buzz_desc (restaurants d))).
    destruct (sort by_buzz_desc (restaurants d)) as [|x l]; [reflexivity |].
    exists x. simpl. auto.
  - exact Hv.
  - destruct (st_restaurants s !! i) as [r|] eqn:E; [| exact Hv].
    rewrite after_click_state. unfold selection_valid.
    cbn [st_restaurants st_selectedId].
    apply list_elem_of_lookup_2, list_elem_of_In in E.
    destruct (st_restaurants s) as [|x l]; [destruct E |].
    exists r. auto.
Qed.

Lemma selection_valid_found (s : State) :
  selection_valid s -> st_restaurants s <> [] ->
  exists r, List.find (id_is (st_selectedId s)) (st_restaurants s) = Some r
            /\ selected s = Some r /\ st_selectedId s = Some (id r).
Proof.
  unfold selection_valid. intros Hv Hne.
  destruct (st_restaurants s) as [|x l] eqn:El; [congruence |].
  destruct Hv as (r & Hin & Hid).
  destruct (find_by_id (x :: l) r Hin) as (r' & Hfind & _ & Hid').
  exists r'. unfold selected. rewrite El, Hid, Hfind.
  repeat split. congruence.
Qed.

(** X4.  In every state the component reaches from its initial one, through
    requests settling either way and clicks on displayed cards, the list is
    in descending order of score and [selectedId] names a record of the
    list: [selected] is found by its id, and the fallback to the first
    element is not what selects it. *)
Theorem reachable_states_are_consistent (es : list event) :
  Forall numeric es ->
  let s := run es initial in
  StronglySorted outranks (st_restaurants s) /\
  selection_valid s /\
  (st_restaurants s <> [] ->
   exists r, List.find (id_is (st_selectedId s)) (st_restaurants s) = Some r
             /\ selected s = Some r /\ st_selectedId s = Some (id r)).
Proof.
  intros Hn. cbv zeta.
  assert (H : StronglySorted outranks (st_restaurants (run es initial)) /\
              selection_valid (run es initial)).
  { unfold run.
    assert (H0 : StronglySorted outranks (st_restaurants initial) /\
                 selection_valid initial)
      by (split; [constructor | reflexivity]).
    revert H0. generalize initial as s.
    induction Hn as [|e es He Hn IH]; intros s [Hs Hv]; [auto |].
    simpl. apply IH. split.
    - apply step_keeps_order; assumption.
    - apply step_keeps_selection, Hv. }
  destruct H as [Hs Hv]. split; [exact Hs |]. split; [exact Hv |].
  apply selection_valid_found, Hv.
Qed.

Lemma reachable_states_are_consistent_witness :
  Forall numeric MoreSamples.session /\
  List.map id (st_restaurants (run MoreSamples.session initial))
  = ["pai"; "alo"; "alobar"] /\
  exists r, selected (run MoreSamples.session initial) = Some r /\
            st_selectedId (run MoreSamples.session initial) = Some (id r).
Proof.
  assert (H : Forall numeric MoreSamples.session).
  { repeat (apply Forall_cons; split; [simpl; auto |]).
    - repeat constructor.
    - apply Forall_nil. exact I. }
  split; [exact H |]. split; [reflexivity |].
  destruct (reachable_states_are_consistent MoreSamples.session H)
    as (_ & _ & Hfound).
  destruct Hfound as (r & _ & Hsel & Hid); [discriminate |].
  exists r. split; assumption.
Defined.

End SelectionProperties.

Section ViewProperties.

Import App Render Interaction.

Lemma after_rejected_state (e : js_error) (s : State) :
  after_fetch (Rejected e) s
  = {| st_restaurants := st_restaurants s;
       st_selectedId := st_selectedId s;
       st_lastRun := st_lastRun s;
       st_isLoading := false;
       st_error := Some fetch_error_message |}.
Proof. reflexivity. Qed.

Lemma omap_marker_pairs (sel : option Restaurant) (l : list Restaurant) :
  List.map (fun m => (marker_key m, marker_position m))
    (omap (marker_of sel) l)
  = omap (fun r => match location r with
                   | Some loc => Some (id r, loc)
                   | None => None
                   end) l.
Proof.
  induction l as [|r l IH]; [reflexivity |].
  cbn [omap list_omap]. unfold marker_of at 1.
  destruct (location r); simpl; rewrite IH; reflexivity.
Qed.

Lemma omap_marker_highlight (sel : option Restaurant) (l : list Restaurant) :
  List.map marker_highlighted (omap (marker_of sel) l)
  = List.map (is_selected sel)
      (List.filter (fun r => bool_decide (is_Some (location r))) l).
Proof.
  induction l as [|r l IH]; [reflexivity |].
  cbn [omap list_omap List.filter]. unfold marker_of at 1.
  destruct (location r); simpl; rewrite IH; reflexivity.
Qed.

(** X7.  The count of sources on a card in [App], the sources line of the
    selected card and the sources figure of [RestaurantCard] follow one
    rule: they appear when the record has a non-empty list of sources, with
    its length or its content, and a record without [sources] is displayed
    like one whose list is empty. *)
Theorem sources_are_shown_when_present
    {Price : Type} (r : Restaurant) (c : RestaurantCard.Restaurant Price) :
  RestaurantCard.sources c = sources r ->
  sources_badge r = length <$> sources_line r /\
  RestaurantCard.sources_stat c = sources_badge r /\
  (sources_badge r = None <-> sources r = None \/ sources r = Some []) /\
  (forall l, sources_line r = Some l <-> sources r = Some l /\ l <> []).
Proof.
  intros Hc. unfold sources_badge, sources_line, RestaurantCard.sources_stat.
  rewrite Hc. destruct (sources r) as [[|x l]|]; simpl.
  - split; [reflexivity |]. split; [reflexivity |]. split.
    + split; auto.
    + intros l'. split; [discriminate |].
      intros [H Hne]. injection H as <-. congruence.
  - split; [reflexivity |]. split; [reflexivity |]. split.
    + split; [discriminate |]. intros [H | H]; discriminate.
    + intros l'. split.
      * intros H. injection H as <-. split; [reflexivity | discriminate].
      * intros [H _]. exact H.
  - split; [reflexivity |]. split; [reflexivity |]. split.
    + split; auto.
    + intros l'. split; [discriminate |]. intros [H _]. discriminate.
Qed.

Lemma sources_are_shown_when_present_witness :
  RestaurantCard.sources
    (RestaurantCard.mkRestaurant nat true "Alo" (Num.Fin (17 # 10)) "French"
       3%nat "Tasting menu" (Num.Fin 8) (Num.Fin 2) (sources Samples.alo)
       (Num.Fin 0) (Num.Fin 0))
  = sources Samples.alo /\
  sources_badge Samples.alo = Some 2%nat.
Proof.
  split; [reflexivity |].
  destruct (sources_are_shown_when_present Samples.alo
              (RestaurantCard.mkRestaurant nat true "Alo" (Num.Fin (17 # 10))
                 "French" 3%nat "Tasting menu" (Num.Fin 8) (Num.Fin 2)
                 (sources Samples.alo) (Num.Fin 0) (Num.Fin 0)) eq_refl)
    as (H & _).
  rewrite H. reflexivity.
Defined.

(** X8.  The selected card shows an address line exactly when the selected
    record has a location whose address is present and not the empty
    string, and the line is that address. *)
Theorem address_is_shown_when_present (r : Restaurant) (a : option string) :
  address_line r = Normal a /\ a <> None <->
  exists loc text,
    location r = Some loc /\ address loc = Some text /\
    text <> "" /\ a = Some text.
Proof.
  unfold address_line, opt_chain, get.
  destruct (location r) as [loc|]; simpl.
  - destruct (address loc) as [text|] eqn:E; simpl.
    + destruct text as [|ch text]; simpl.
      * split.
        -- intros [H Hne]. injection H as <-. congruence.
        -- intros (loc' & t & Hl & Ht & Hne & _). injection Hl as <-.
           rewrite E in Ht. injection Ht as <-. congruence.
      * split.
        -- intros [H _]. injection H as <-. exists loc, (String ch text).
           repeat split; [exact E | discriminate].
        -- intros (loc' & t & Hl & Ht & _ & ->). injection Hl as <-.
           rewrite E in Ht. injection Ht as <-.
           split; [reflexivity | discriminate].
    + split.
      * intros [H Hne]. injection H as <-. congruence.
      * intros (loc' & t & Hl & Ht & _). injection Hl as <-.
        rewrite E in Ht. discriminate.
  - split.
    + intros [H Hne]. injection H as <-. congruence.
    + intros (loc' & t & Hl & _). discriminate.
Qed.

End ViewProperties.

Section MetricProperties.

Import App Render Interaction.

Lemma add_counts (a b : Z) :
  Num.add (count a) (count b) = count (a + b).
Proof.
  unfold count, Num.add, Qplus, inject_Z. simpl. f_equal. f_equal. lia.
Qed.

Lemma count_of_count (z : Z) : count_of (count z) = z.
Proof. unfold count_of, count. apply Qfloor_Z. Qed.

Lemma fold_counts (l : list Restaurant) (acc : Z) :
  Forall (fun r => exists z, (0 <= z)%Z /\ mentions r = count z) l ->
  fold_left (fun sum r => Num.add sum (mentions r)) l (count acc)
  = count (acc + sum_counts l).
Proof.
  intros H. revert acc. induction H as [|r l (z & _ & Hz) Hl IH]; intros acc.
  - unfold sum_counts. simpl. f_equal. lia.
  - cbn [fold_left]. rewrite Hz, add_counts, IH. f_equal.
    unfold sum_counts. cbn [List.map fold_right].
    rewrite Hz, count_of_count. lia.
Qed.

Lemma sum_counts_perm (l l' : list Restaurant) :
  Permutation l l' -> sum_counts l = sum_counts l'.
Proof.
  unfold sum_counts. induction 1; cbn [List.map fold_right]; lia.
Qed.

End MetricProperties.

Section FormatFacts.

Import Format.

Lemma negative_iff (q : Q) : negative q = true <-> (q < 0)%Q.
Proof.
  unfold negative. rewrite Qlt_alt. destruct (q ?= 0)%Q; split; congruence.
Qed.

Lemma tenths_bounds (q : Q) :
  (inject_Z (tenths q) <= 10 * Qabs q + (1 # 2) /\
   10 * Qabs q + (1 # 2) < inject_Z (tenths q) + 1)%Q.
Proof.
  unfold tenths. split; [apply Qfloor_le |].
  rewrite <- (inject_Z_plus _ 1). apply Qlt_floor.
Qed.

Lemma tenths_nonneg (q : Q) : (0 <= tenths q)%Z.
Proof.
  unfold tenths. rewrite <- (Qfloor_Z 0). apply Qfloor_resp_le.
  pose proof (Qabs_nonneg q). change (inject_Z 0) with 0%Q. lra.
Qed.

Lemma tenths_mono (p q : Q) :
  (Qabs p <= Qabs q)%Q -> (tenths p <= tenths q)%Z.
Proof. intros H. unfold tenths. apply Qfloor_resp_le. lra. Qed.

Lemma shown_close (q : Q) : (Qabs (shown q - q) <= 1 # 20)%Q.
Proof.
  destruct (tenths_bounds q) as [H1 H2]. unfold shown, Qdiv.
  change (/ 10)%Q with (1 # 10)%Q.
  apply Qabs_Qle_condition.
  destruct (negative q) eqn:E.
  - apply negative_iff in E. rewrite (Qabs_neg q) in H1, H2 by lra.
    split; lra.
  - apply not_true_iff_false in E. rewrite negative_iff in E.
    rewrite (Qabs_pos q) in H1, H2 by lra. split; lra.
Qed.

Lemma shown_mono (p q : Q) : (p <= q)%Q -> (shown p <= shown q)%Q.
Proof.
  intros H. unfold shown, Qdiv. change (/ 10)%Q with (1 # 10)%Q.
  pose proof (tenths_nonneg p) as Hp. pose proof (tenths_nonneg q) as Hq.
  rewrite Zle_Qle in Hp, Hq. change (inject_Z 0) with 0%Q in *.
  destruct (negative p) eqn:Ep, (negative q) eqn:Eq.
  - apply negative_iff in Ep, Eq.
    assert (Ht : (tenths q <= tenths p)%Z).
    { apply tenths_mono. rewrite !Qabs_neg by lra. lra. }
    rewrite Zle_Qle in Ht. lra.
  - lra.
  - apply negative_iff in Eq. apply not_true_iff_false in Ep.
    rewrite negative_iff in Ep. lra.
  - apply not_true_iff_false in Ep, Eq. rewrite negative_iff in Ep, Eq.
    assert (Ht : (tenths p <= tenths q)%Z).
    { apply tenths_mono. rewrite !Qabs_pos by lra. lra. }
    rewrite Zle_Qle in Ht. lra.
Qed.

Lemma decimal_digit (d : Z) :
  (0 <= d < 10)%Z -> String.length (decimal d) = 1%nat.
Proof.
  intros H.
  assert (Hd : (d = 0 \/ d = 1 \/ d = 2 \/ d = 3 \/ d = 4 \/ d = 5
                \/ d = 6 \/ d = 7 \/ d = 8 \/ d = 9)%Z) by lia.
  repeat (destruct Hd as [-> | Hd]; [reflexivity |]). subst d. reflexivity.
Qed.

Lemma shown_digits (q : Q) :
  (Qabs (shown q)
   == inject_Z (tenths q / 10) + inject_Z (tenths q mod 10) / 10)%Q.
Proof.
  pose proof (tenths_nonneg q) as Hn. rewrite Zle_Qle in Hn.
  change (inject_Z 0) with 0%Q in Hn.
  assert (Hq : (inject_Z (tenths q)
                == 10 * inject_Z (tenths q / 10)
                   + inject_Z (tenths q mod 10))%Q).
  { change 10%Q with (inject_Z 10).
    rewrite <- inject_Z_mult, <- inject_Z_plus, <- Z.div_mod by lia.
    reflexivity. }
  unfold shown, Qdiv in *. change (/ 10)%Q with (1 # 10)%Q in *.
  destruct (negative q).
  - rewrite Qabs_neg by lra. lra.
  - rewrite Qabs_pos by lra. lra.
Qed.

End FormatFacts.

Section FormatProperties.

Import App Render Format.

(** X11.  [x.toFixed(1)], which prints every score and sentiment, is at most
    one twentieth away from the number; a finite number below [10^21] prints
    as an optional minus sign, the digits of an integer, a point and exactly
    one digit, which together denote the rounded value; from [10^21] on the
    fixed notation is given up. *)
Theorem toFixed1_rounds_to_a_tenth (q : Q) :
  (Qabs (shown q - q) <= 1 # 20)%Q /\
  (0 <= tenths q mod 10 < 10)%Z /\
  String.length (decimal (tenths q mod 10)) = 1%nat /\
  (Qabs (shown q)
   == inject_Z (tenths q / 10) + inject_Z (tenths q mod 10) / 10)%Q /\
  (toFixed1 (Num.Fin q) = None <-> (inject_Z (10 ^ 21) <= Qabs q)%Q) /\
  (toFixed1 (Num.Fin q) <> None ->
   toFixed1 (Num.Fin q)
   = Some ((if negative q then "-" else "")
           ++ decimal (tenths q / 10) ++ "."
           ++ decimal (tenths q mod 10))).
Proof.
  assert (Hd : (0 <= tenths q mod 10 < 10)%Z)
    by (apply Z.mod_pos_bound; lia).
  split; [apply shown_close |]. split; [exact Hd |].
  split; [apply decimal_digit, Hd |]. split; [apply shown_digits |].
  unfold toFixed1.
  destruct (Qle_bool (inject_Z (10 ^ 21)) (Qabs q)) eqn:E.
  - apply Qle_bool_iff in E. split; [tauto | congruence].
  - split; [| reflexivity]. split; [discriminate |].
    intros H. apply Qle_bool_iff in H. congruence.
Qed.

(** X12.  Down the displayed list the printed scores never increase: of two
    neighbouring cards with finite scores, the upper one prints a value at
    least as large as the lower one, although both are rounded. *)
Theorem printed_scores_descend
    (resp : DataResponse) (s : State) (i : nat)
    (a b : Restaurant) (qa qb : Q) :
  scores_are_numbers (restaurants resp) ->
  st_restaurants (after_fetch (Resolved resp) s) !! i = Some a ->
  st_restaurants (after_fetch (Resolved resp) s) !! S i = Some b ->
  buzz_score a = Num.Fin qa -> buzz_score b = Num.Fin qb ->
  (shown qb <= shown qa)%Q.
Proof.
  intros Hn Ha Hb Hqa Hqb.
  rewrite after_fetch_restaurants in Ha, Hb.
  pose proof (descending_adjacent _ i a b (sort_descending _ Hn) Ha Hb)
    as Hab.
  unfold outranks in Hab. rewrite Hqa, Hqb in Hab.
  apply shown_mono, geb_Fin, Hab.
Qed.

Lemma printed_scores_descend_witness :
  scores_are_numbers (restaurants MoreSamples.rounding_response) /\
  (shown (169 # 100) <= shown (17 # 10))%Q.
Proof.
  assert (H : scores_are_numbers (restaurants MoreSamples.rounding_response))
    by (repeat constructor).
  split; [exact H |].
  exact (printed_scores_descend MoreSamples.rounding_response initial 0
           Samples.alo
           {| id := "edge"; name := "Edge";
              buzz_score := Num.Fin (169 # 100); sentiment := Num.Fin 7;
              mentions := Num.Fin 1; summary := "Prints like Alo";
              location := None; sources := None |}
           (17 # 10) (169 # 100) H eq_refl eq_refl eq_refl eq_refl).
Defined.

End FormatProperties.

Section DateProperties.

Import App Format.

Variable valid_date : string -> bool.
Variable format : string -> string.

(** X13.  The Last run cell shows the dash as long as no request has
    succeeded, failed requests included, and for a snapshot whose [date] is
    the empty string; a snapshot with a date the platform can parse shows it
    formatted; a snapshot whose non-empty [date] is not a valid date makes
    the memo throw a [RangeError], so that the component cannot render. *)
Theorem last_run_cell_after_fetch
    (e : js_error) (resp : DataResponse) (s : State) :
  last_run_cell valid_date format initial = Returned None /\
  last_run_cell valid_date format (after_fetch (Rejected e) s)
  = last_run_cell valid_date format s /\
  (date resp = "" ->
   last_run_cell valid_date format (after_fetch (Resolved resp) s)
   = Returned None) /\
  (date resp <> "" -> valid_date (date resp) = true ->
   last_run_cell valid_date format (after_fetch (Resolved resp) s)
   = Returned (Some (format (date resp)))) /\
  (last_run_cell valid_date format (after_fetch (Resolved resp) s)
   = RangeError
   <-> date resp <> "" /\ valid_date (date resp) = false).
Proof.
  split; [reflexivity |]. split; [reflexivity |].
  unfold last_run_cell.
  change (st_lastRun (after_fetch (Resolved resp) s))
    with (Some (date resp)).
  unfold formattedDate.
  destruct (date resp) as [|c d] eqn:E; cbn [Render.truthy negb].
  - split; [intros _; reflexivity |].
    split; [intros H; congruence |].
    split; [discriminate | intros [H _]; congruence].
  - split; [intros H; discriminate H |].
    destruct (valid_date (String c d)) eqn:V.
    + split; [intros _ _; reflexivity |].
      split; [discriminate | intros [_ H]; discriminate].
    + split; [intros _ H; discriminate |].
      split; [intros _; split; [discriminate | reflexivity] |].
      intros _; reflexivity.
Qed.

End DateProperties.

Section DateWitness.

Import App.

Lemma last_run_cell_after_fetch_witness :
  date Samples.response <> "" /\
  Format.last_run_cell (fun _ => false) (fun d => d)
    (after_fetch (Resolved Samples.response) initial)
  = Format.RangeError.
Proof.
  assert (H : date Samples.response <> "") by discriminate.
  split; [exact H |].
  destruct (last_run_cell_after_fetch (fun _ => false) (fun d => d)
              (NetworkError "") Samples.response initial)
    as (_ & _ & _ & _ & Hthrow).
  apply Hthrow. split; [exact H | reflexivity].
Defined.

End DateWitness.

Section CardProperties.

Import RestaurantCard.

Lemma truthy_count (k : Z) :
  truthy_number (Num.Fin (inject_Z k)) = negb (k =? 0)%Z.
Proof.
  unfold truthy_number, Qeq_bool, inject_Z. simpl.
  rewrite Z.mul_1_r. reflexivity.
Qed.

Lemma three_geb_count (k : Z) :
  Num.geb (Num.Fin 3) (Num.Fin (inject_Z k)) = (k <=? 3)%Z.
Proof.
  destruct (k <=? 3)%Z eqn:E.
  - apply geb_Fin. apply Z.leb_le in E.
    change 3%Q with (inject_Z 3). rewrite <- Zle_Qle. exact E.
  - apply not_true_iff_false. intros H. apply geb_Fin in H.
    change 3%Q with (inject_Z 3) in H. rewrite <- Zle_Qle in H.
    apply Z.leb_le in H. congruence.
Qed.

(** X14.  For a whole-number [rank], [RestaurantCard] shows the badge when
    the rank is at most 3 and not 0, and nothing when it is larger; a rank
    of 0 puts the bare number 0 into the card, as does NaN; without a rank
    nothing is shown. *)
Theorem rank_badge_of_whole_rank (k : Z) :
  rank_badge (Some (Num.Fin (inject_Z k)))
  = (if (k =? 0)%Z then StrayNumber (Num.Fin (inject_Z k))
     else if (k <=? 3)%Z then RankBadge (Num.Fin (inject_Z k))
     else NoBadge) /\
  rank_badge None = NoBadge /\
  rank_badge (Some Num.NaN) = StrayNumber Num.NaN.
Proof.
  split; [| split; reflexivity].
  unfold rank_badge. rewrite truthy_count, three_geb_count.
  destruct (k =? 0)%Z; reflexivity.
Qed.

Lemma bubble_stopped (handler : part -> handled) (x : part)
    (rest : list part) :
  stopped (handler x) = true ->
  bubble handler (x :: rest) = calls (handler x).
Proof. intros H. simpl. rewrite H. reflexivity. Qed.

(** X15.  A click on the like, save or share button of a card makes the
    call of that button alone and never [onSelect]; a click anywhere else in
    the card makes exactly one call, [onSelect]; sharing does nothing in a
    browser without [navigator.share]; and a key pressed anywhere in the
    card, its buttons included, calls [onSelect] exactly when it is
    Enter. *)
Theorem card_events_reach_one_callback
    {Price : Type} (can_share : bool) (p : Props Price)
    (target : part) (key : string) :
  (In OnSelect (click can_share p target) <-> target = Article) /\
  click can_share p Article = [OnSelect] /\
  click can_share p LikeButton = [OnLike] /\
  click can_share p SaveButton = [OnSave] /\
  click can_share p ShareButton
  = (if can_share
     then [Share (name (restaurant p)) (summary (restaurant p))]
     else []) /\
  keydown key target = (if String.eqb key "Enter" then [OnSelect] else []).
Proof.
  split.
  - destruct target; unfold click; simpl.
    + split; auto.
    + split; [intros [H | []]; discriminate | discriminate].
    + split; [intros [H | []]; discriminate | discriminate].
    + destruct can_share; simpl;
        (split; [| discriminate]); intros H;
        repeat (destruct H as [H | H]; [discriminate |]); destruct H.
  - repeat split; try reflexivity.
    destruct target; unfold keydown; simpl;
      destruct (String.eqb key "Enter"); reflexivity.
Qed.

End CardProperties.

(** * The rendered page *)

Section PageFacts.

Import App Render Page.

Variable valid_date : string -> bool.
Variable format : string -> string.

(** A render either throws the [RangeError] of the date memo or returns the
    tree built from the state. *)
Lemma render_cases (s : State) :
  match Format.formattedDate valid_date format (st_lastRun s) with
  | Format.Returned d =>
      exists c,
        selected_card_of (selected s) = Normal c /\
        render valid_date format s
        = Normal {| status_chip := chip_of s;
                    metric_restaurants := length (st_restaurants s);
                    metric_mentions := totalMentions s;
                    last_run := nullish d "—";
                    alert := alert_of s;
                    cards := List.map (card_of (selected s))
                               (st_restaurants s);
                    selected_card := c;
                    map_center := center_of (selected s);
                    markers := omap (marker_of (selected s))
                                 (st_restaurants s) |}
  | Format.RangeError =>
      render valid_date format s = Thrown (RangeError "Invalid time value")
  end.
Proof.
  unfold render, formatted.
  destruct (Format.formattedDate valid_date format (st_lastRun s)) as [d|].
  - destruct (selected_card_total (selected s)) as [c Hc].
    exists c. split; [exact Hc |]. simpl. rewrite Hc. reflexivity.
  - reflexivity.
Qed.

(** What a returned tree holds. *)
Lemma render_Normal (s : State) (v : View) :
  render valid_date format s = Normal v ->
  cards v = List.map (card_of (selected s)) (st_restaurants s) /\
  markers v = omap (marker_of (selected s)) (st_restaurants s) /\
  map_center v = center_of (selected s) /\
  selected_card_of (selected s) = Normal (selected_card v) /\
  metric_restaurants v = length (st_restaurants s) /\
  metric_mentions v = totalMentions s /\
  alert v = alert_of s /\
  status_chip v = chip_of s /\
  exists d, Format.formattedDate valid_date format (st_lastRun s)
            = Format.Returned d /\ last_run v = nullish d "—".
Proof.
  intros H. pose proof (render_cases s) as Hc.
  destruct (Format.formattedDate valid_date format (st_lastRun s)) as [d|].
  - destruct Hc as (c & Hsc & Hr). rewrite Hr in H. injection H as <-.
    simpl. repeat split; try assumption. exists d. auto.
  - rewrite Hc in H. discriminate.
Qed.

(** The component renders exactly when the date memo does not throw. *)
Lemma render_returns_iff (s : State) :
  (exists v, render valid_date format s = Normal v) <->
  Format.formattedDate valid_date format (st_lastRun s) <> Format.RangeError.
Proof.
  pose proof (render_cases s) as Hc.
  destruct (Format.formattedDate valid_date format (st_lastRun s)) as [d|].
  - destruct Hc as (c & _ & Hr). split; [discriminate | eauto].
  - split; [| congruence]. intros [v Hv]. rewrite Hc in Hv. discriminate.
Qed.

(** The only throw of a render is that of the date memo. *)
Lemma render_Thrown (s : State) (e : js_error) :
  render valid_date format s = Thrown e ->
  e = RangeError "Invalid time value" /\
  Format.formattedDate valid_date format (st_lastRun s) = Format.RangeError.
Proof.
  intros H. pose proof (render_cases s) as Hc.
  destruct (Format.formattedDate valid_date format (st_lastRun s)) as [d|].
  - destruct Hc as (c & _ & Hr). rewrite Hr in H. discriminate.
  - rewrite Hc in H. injection H as <-. auto.
Qed.

(** After a resolved request the date memo is that of the snapshot's
    [date]. *)
Lemma formatted_after_resolved (resp : DataResponse) (s : State) :
  Format.formattedDate valid_date format
    (st_lastRun (after_fetch (Resolved resp) s))
  = Format.formattedDate valid_date format (Some (date resp)).
Proof. reflexivity. Qed.

Lemma readable_date_returns (d : string) :
  d = "" \/ valid_date d = true ->
  Format.formattedDate valid_date format (Some d) <> Format.RangeError.
Proof.
  unfold Format.formattedDate. intros [-> | Hv]; [discriminate |].
  destruct (negb (truthy d)); [discriminate |]. rewrite Hv. discriminate.
Qed.

End PageFacts.

Section PageClaims.

Import App Render Page.

Variable valid_date : string -> bool.
Variable format : string -> string.

(** C2.  For every fetched snapshot the client orders the list it displays
    by [buzz_score], descending: the list held after the fetch is a
    permutation of [response.data.restaurants] in which every element's
    score is at least the next one's, and the cards of every tree the
    component renders from it follow that order; it renders whenever the
    snapshot's date is empty or one the platform can read.  The scores of a
    snapshot are numbers, JSON having no NaN. *)
Theorem client_sorts_by_buzz_score_descending
    (resp : DataResponse) (s : State) :
  scores_are_numbers (restaurants resp) ->
  let shown := st_restaurants (after_fetch (Resolved resp) s) in
  Permutation (restaurants resp) shown /\
  (forall i a b,
     shown !! i = Some a -> shown !! S i = Some b ->
     Num.geb (buzz_score a) (buzz_score b) = true) /\
  (forall v,
     render valid_date format (after_fetch (Resolved resp) s) = Normal v ->
     List.map card_key (cards v) = List.map id shown) /\
  (date resp = "" \/ valid_date (date resp) = true ->
   exists v,
     render valid_date format (after_fetch (Resolved resp) s) = Normal v).
Proof.
  intros Hn shown. subst shown. rewrite after_fetch_restaurants.
  split; [apply sort_perm |]. split; [| split].
  - intros i a b Ha Hb.
    exact (descending_adjacent _ i a b (sort_descending _ Hn) Ha Hb).
  - intros v Hv.
    destruct (render_Normal valid_date format _ v Hv) as (Hc & _).
    rewrite Hc, after_fetch_restaurants, List.map_map. reflexivity.
  - intros Hd. apply render_returns_iff.
    rewrite formatted_after_resolved. apply readable_date_returns, Hd.
Qed.

(** C3.  A record whose location is [null] is kept by the fetch; in every
    tree the component renders it has its card, and no marker is rendered
    for it (every marker belongs to a record that has a location); when it
    is the selected record the map is centred on [FALLBACK_CENTER] and the
    selected card has no address line.  No location makes a render fail: the
    component renders exactly when the date memo returns, and the only error
    a render throws is the [RangeError] of that memo. *)
Theorem null_location_is_tolerated (r : Restaurant) :
  location r = None ->
  (forall resp s0,
     In r (restaurants resp) ->
     In r (st_restaurants (after_fetch (Resolved resp) s0))) /\
  (forall s v,
     In r (st_restaurants s) ->
     render valid_date format s = Normal v ->
     In (card_of (selected s) r) (cards v) /\
     length (cards v) = length (st_restaurants s) /\
     marker_of (selected s) r = None /\
     markers v = omap (marker_of (selected s)) (st_restaurants s) /\
     (forall m, In m (markers v) ->
        exists r', In r' (st_restaurants s) /\
                   location r' = Some (marker_position m) /\
                   marker_key m = id r') /\
     (selected s = Some r ->
        map_center v = FALLBACK_CENTER /\
        exists c, selected_card v = Some c /\ sc_address c = None)) /\
  (forall s,
     (exists v, render valid_date format s = Normal v) <->
     Format.formattedDate valid_date format (st_lastRun s)
     <> Format.RangeError) /\
  (forall s e,
     render valid_date format s = Thrown e ->
     e = RangeError "Invalid time value" /\
     Format.formattedDate valid_date format (st_lastRun s)
     = Format.RangeError).
Proof.
  intros Hnull. split; [| split; [| split]].
  - intros resp s0 Hin. rewrite after_fetch_restaurants.
    apply sort_In, Hin.
  - intros s v Hin Hv.
    destruct (render_Normal valid_date format s v Hv)
      as (Hc & Hm & Hcen & Hsc & _).
    split; [rewrite Hc; apply List.in_map, Hin |].
    split; [rewrite Hc; apply List.length_map |].
    split; [apply marker_of_null, Hnull |].
    split; [exact Hm |].
    split; [intros m Hmin; rewrite Hm in Hmin;
            eapply marker_origin; exact Hmin |].
    intros Hsel. rewrite Hsel in Hcen, Hsc. split.
    + rewrite Hcen. unfold center_of. simpl. rewrite Hnull. reflexivity.
    + simpl in Hsc. rewrite (address_line_null r Hnull) in Hsc.
      simpl in Hsc. injection Hsc as Hsc. eexists.
      split; [symmetry; exact Hsc | reflexivity].
  - apply render_returns_iff.
  - apply render_Thrown.
Qed.

End PageClaims.

Section PageWitnesses.

Import App Render Page.

Lemma client_sorts_by_buzz_score_descending_witness :
  scores_are_numbers (restaurants Samples.response) /\
  Permutation (restaurants Samples.response)
    [Samples.pai; Samples.alo; Samples.alobar] /\
  exists v,
    render (fun _ => true) (fun d => d)
      (after_fetch (Resolved Samples.response) initial) = Normal v /\
    List.map card_key (cards v) = ["pai"; "alo"; "alobar"].
Proof.
  assert (H : scores_are_numbers (restaurants Samples.response))
    by (repeat constructor).
  split; [exact H |].
  destruct (client_sorts_by_buzz_score_descending (fun _ => true)
              (fun d => d) Samples.response initial H)
    as (Hp & _ & Hcards & Hrenders).
  split; [exact Hp |].
  destruct (Hrenders (or_intror eq_refl)) as [v Hv].
  exists v. split; [exact Hv | exact (Hcards v Hv)].
Defined.

Lemma null_location_is_tolerated_witness :
  location Samples.alo = None /\
  exists v, render (fun _ => true) (fun d => d) Samples.alo_clicked
            = Normal v /\
            map_center v = FALLBACK_CENTER /\
            List.map marker_key (markers v) = ["pai"].
Proof.
  assert (H : location Samples.alo = None) by reflexivity.
  split; [exact H |].
  destruct (null_location_is_tolerated (fun _ => true) (fun d => d)
              Samples.alo H) as (_ & Hs & Hr & _).
  destruct (proj2 (Hr Samples.alo_clicked)) as [v Hv]; [discriminate |].
  destruct (Hs Samples.alo_clicked v) as (_ & _ & _ & Hm & _ & Hc);
    [simpl; auto | exact Hv |].
  exists v. split; [exact Hv |].
  split; [apply Hc; reflexivity |].
  rewrite Hm. reflexivity.
Defined.

End PageWitnesses.

Section PageProperties.

Import App Render Page Interaction.

Variable valid_date : string -> bool.
Variable format : string -> string.

(** X5.  A rejected request leaves what was rendered as it is but for two
    places: the alert, which shows the fixed message, and the status chip,
    which turns to Live.  The cards, the selected card, the markers, the map
    centre, the two metrics and the Last run cell are those of before; a
    render that threw the date error throws it again; and the tree of the
    next request that resolves has no alert. *)
Theorem failed_fetch_keeps_the_view
    (e : js_error) (resp : DataResponse) (s : State) (v : View) :
  render valid_date format s = Normal v ->
  render valid_date format (after_fetch (Rejected e) s)
  = Normal {| status_chip := "Live";
              metric_restaurants := metric_restaurants v;
              metric_mentions := metric_mentions v;
              last_run := last_run v;
              alert := Some fetch_error_message;
              cards := cards v;
              selected_card := selected_card v;
              map_center := map_center v;
              markers := markers v |} /\
  (forall v',
     render valid_date format
       (after_fetch (Resolved resp) (after_fetch (Rejected e) s))
     = Normal v' ->
     alert v' = None /\ status_chip v' = "Live") /\
  (forall s0 err,
     render valid_date format s0 = Thrown err ->
     render valid_date format (after_fetch (Rejected e) s0) = Thrown err).
Proof.
  intros Hv. split; [| split].
  - pose proof (render_cases valid_date format s) as Hc.
    pose proof (render_cases valid_date format (after_fetch (Rejected e) s))
      as Hc'.
    rewrite after_rejected_state in Hc'.
    unfold selected, totalMentions, chip_of, alert_of in Hc, Hc'.
    cbn [st_restaurants st_selectedId st_lastRun st_isLoading st_error]
      in Hc'.
    rewrite after_rejected_state.
    destruct (Format.formattedDate valid_date format (st_lastRun s))
      as [d|].
    + destruct Hc as (c & Hsc & Hr). destruct Hc' as (c' & Hsc' & Hr').
      rewrite Hr in Hv. injection Hv as <-.
      rewrite Hr'. cbn [status_chip metric_restaurants metric_mentions
                        last_run alert cards selected_card map_center
                        markers].
      assert (c' = c) as -> by congruence. reflexivity.
    + rewrite Hc in Hv. discriminate.
  - intros v' Hv'.
    destruct (render_Normal valid_date format _ v' Hv')
      as (_ & _ & _ & _ & _ & _ & Ha & Hs & _).
    rewrite Ha, Hs. split; reflexivity.
  - intros s0 err Herr.
    destruct (render_Thrown valid_date format s0 err Herr) as [-> Hd].
    pose proof (render_cases valid_date format
                  (after_fetch (Rejected e) s0)) as Hc.
    rewrite after_rejected_state in Hc. cbn [st_lastRun] in Hc.
    rewrite Hd in Hc. rewrite after_rejected_state. exact Hc.
Qed.

(** X6.  Every tree the component renders has one marker for each displayed
    record that has a location and none for the others, in the order of the
    list, keyed by the record's id and placed at its location; a marker is
    highlighted exactly when the card of its record is. *)
Theorem markers_follow_the_list (s : State) (v : View) :
  render valid_date format s = Normal v ->
  List.map (fun m => (marker_key m, marker_position m)) (markers v)
  = omap (fun r => match location r with
                   | Some loc => Some (id r, loc)
                   | None => None
                   end) (st_restaurants s) /\
  List.map marker_highlighted (markers v)
  = List.map card_selected
      (List.map (card_of (selected s))
         (List.filter (fun r => bool_decide (is_Some (location r)))
            (st_restaurants s))) /\
  (length (markers v) <= length (cards v))%nat.
Proof.
  intros Hv.
  destruct (render_Normal valid_date format s v Hv) as (Hc & Hm & _).
  rewrite Hm, Hc. split; [apply omap_marker_pairs |]. split.
  - rewrite omap_marker_highlight, List.map_map. reflexivity.
  - rewrite List.length_map. generalize (st_restaurants s) as l.
    induction l as [|r l IH]; [reflexivity |].
    cbn [omap list_omap]. destruct (marker_of (selected s) r); simpl; lia.
Qed.

(** X9.  When the [mentions] of a snapshot are counts whose sum is a safe
    integer, the total the client computes is that sum, whatever the order
    in which it has put the records, and every tree rendered from the
    snapshot shows it as the Mentions metric, beside the number of records
    of the snapshot. *)
Theorem mentions_metric_is_the_sum (resp : DataResponse) (s : State) :
  counts_fit (restaurants resp) ->
  totalMentions (after_fetch (Resolved resp) s)
  = count (sum_counts (restaurants resp)) /\
  (forall v,
     render valid_date format (after_fetch (Resolved resp) s) = Normal v ->
     metric_mentions v = count (sum_counts (restaurants resp)) /\
     metric_restaurants v = length (restaurants resp)).
Proof.
  intros [Hc _].
  assert (Ht : totalMentions (after_fetch (Resolved resp) s)
               = count (sum_counts (restaurants resp))).
  { unfold totalMentions. rewrite after_fetch_restaurants.
    change Num.zero with (count 0).
    rewrite fold_counts.
    - rewrite <- (sum_counts_perm _ _ (sort_perm by_buzz_desc _)).
      f_equal.
    - apply (Permutation_Forall (sort_perm by_buzz_desc _)), Hc. }
  split; [exact Ht |]. intros v Hv.
  destruct (render_Normal valid_date format _ v Hv)
    as (_ & _ & _ & _ & Hr & Hm & _).
  rewrite Hr, Hm, after_fetch_restaurants.
  split; [exact Ht |].
  symmetry. apply Permutation_length, sort_perm.
Qed.

(** X10.  With no record to show nothing is selected, and every tree the
    component renders is empty but whole: no card, no selected card, no
    marker, both metrics zero, the map on [FALLBACK_CENTER].  A snapshot
    whose [restaurants] is empty leaves such a state, and is rendered
    exactly when its date is empty or one the platform can read. *)
Theorem empty_list_renders_empty_view (s : State) (date : string) :
  (st_restaurants s = [] ->
   selected s = None /\
   forall v,
     render valid_date format s = Normal v ->
     cards v = [] /\ selected_card v = None /\ markers v = [] /\
     metric_restaurants v = 0%nat /\ metric_mentions v = Num.zero /\
     map_center v = FALLBACK_CENTER) /\
  st_restaurants
    (after_fetch (Resolved {| App.date := date; restaurants := [] |}) s) = []
  /\ st_selectedId
       (after_fetch (Resolved {| App.date := date; restaurants := [] |}) s)
     = None
  /\ ((exists v,
         render valid_date format
           (after_fetch (Resolved {| App.date := date; restaurants := [] |})
              s) = Normal v)
      <-> date = "" \/ valid_date date = true).
Proof.
  split; [| split; [reflexivity | split; [reflexivity |]]].
  - intros H. assert (Hsel : selected s = None) by (apply selected_empty, H).
    split; [exact Hsel |]. intros v Hv.
    destruct (render_Normal valid_date format s v Hv)
      as (Hc & Hm & Hcen & Hsc & Hr & Hmm & _).
    rewrite Hsel in *. rewrite H in *. simpl in Hsc.
    injection Hsc as Hsc. unfold totalMentions in Hmm. rewrite H in Hmm.
    repeat split; auto.
  - rewrite render_returns_iff, formatted_after_resolved.
    cbn [App.date]. unfold Format.formattedDate.
    destruct date as [|c d]; cbn [truthy negb].
    + split; [auto | discriminate].
    + destruct (valid_date (String c d)).
      * split; [auto | discriminate].
      * split; [congruence |]. intros [H | H]; discriminate.
Qed.

End PageProperties.

Section PagePropertyWitnesses.

Import App Render Page Interaction.

Lemma failed_fetch_keeps_the_view_witness :
  exists v,
    render (fun _ => true) (fun d => d) Samples.loaded = Normal v /\
    exists v',
      render (fun _ => true) (fun d => d)
        (after_fetch (Rejected (NetworkError "offline")) Samples.loaded)
      = Normal v' /\
      cards v' = cards v /\ alert v' = Some fetch_error_message.
Proof.
  destruct (proj2 (render_returns_iff (fun _ => true) (fun d => d)
                     Samples.loaded)) as [v Hv]; [discriminate |].
  exists v. split; [exact Hv |].
  destruct (failed_fetch_keeps_the_view (fun _ => true) (fun d => d)
              (NetworkError "offline") Samples.response Samples.loaded v Hv)
    as (Hr & _).
  eexists. split; [exact Hr |]. split; reflexivity.
Defined.

Lemma markers_follow_the_list_witness :
  exists v,
    render (fun _ => true) (fun d => d) Samples.loaded = Normal v /\
    List.map (fun m => (marker_key m, marker_position m)) (markers v)
    = [("pai", Samples.pai_location)].
Proof.
  destruct (proj2 (render_returns_iff (fun _ => true) (fun d => d)
                     Samples.loaded)) as [v Hv]; [discriminate |].
  exists v. split; [exact Hv |].
  destruct (markers_follow_the_list (fun _ => true) (fun d => d)
              Samples.loaded v Hv) as (Hm & _).
  rewrite Hm. reflexivity.
Defined.

Lemma mentions_metric_is_the_sum_witness :
  counts_fit (restaurants MoreSamples.counted_response) /\
  totalMentions (after_fetch (Resolved MoreSamples.counted_response) initial)
  = count 6.
Proof.
  assert (H : counts_fit (restaurants MoreSamples.counted_response)).
  { split.
    - repeat (apply Forall_cons; split;
              [eexists; split; [| reflexivity]; lia |]).
      apply Forall_nil. exact I.
    - vm_compute. discriminate. }
  split; [exact H |].
  exact (proj1 (mentions_metric_is_the_sum (fun _ => true) (fun d => d)
                  MoreSamples.counted_response initial H)).
Defined.

Lemma empty_list_renders_empty_view_witness :
  st_restaurants initial = [] /\ selected initial = None.
Proof.
  split; [reflexivity |].
  exact (proj1 (proj1 (empty_list_renders_empty_view (fun _ => true)
                         (fun d => d) initial "") eq_refl)).
Defined.

End PagePropertyWitnesses.

(** * The example names *)

Section ExampleNames.

Import Resolver.

Lemma example_names_NoDup : NoDup example_names.
Proof.
  unfold example_names.
  repeat (apply NoDup_cons; split;
          [intros H; repeat (apply elem_of_cons in H;
                             destruct H as [H | H]; [discriminate H |]);
           apply elem_of_nil in H; exact H |]).
  apply NoDup_nil. exact I.
Qed.

(** The arrival orders of the three names are the six listed. *)
Lemma example_orders_complete (ms : list Mention) :
  Permutation example_names ms -> In ms example_orders.
Proof.
  intros H. pose proof (Permutation_length H) as Hl.
  destruct ms as [|x [|y [|z [|w ms]]]]; try discriminate Hl.
  assert (Hnd : NoDup [x; y; z])
    by (rewrite <- H; apply example_names_NoDup).
  assert (Hx : In x example_names)
    by (apply (Permutation_in _ (Permutation_sym H)); simpl; auto).
  assert (Hy : In y example_names)
    by (apply (Permutation_in _ (Permutation_sym H)); simpl; auto).
  assert (Hz : In z example_names)
    by (apply (Permutation_in _ (Permutation_sym H)); simpl; auto).
  apply NoDup_cons in Hnd. destruct Hnd as [Hxy Hnd].
  apply NoDup_cons in Hnd. destruct Hnd as [Hyz _].
  simpl in Hx, Hy, Hz.
  destruct Hx as [<- | [<- | [<- | []]]];
    destruct Hy as [<- | [<- | [<- | []]]];
    destruct Hz as [<- | [<- | [<- | []]]];
    first [ exfalso; apply Hxy; solve [left | right; left]
          | exfalso; apply Hyz; left
          | simpl; repeat (first [left; reflexivity | right]) ].
Qed.

Lemma example_orders_expected (threshold : nat) :
  (threshold <= 3)%nat ->
  Forall (fun ms => expected_grouping (resolve threshold ms)) example_orders.
Proof.
  intros Ht.
  destruct threshold as [|[|[|[|t]]]]; [| | | | lia];
    unfold example_orders;
    repeat (apply Forall_cons; split;
            [unfold expected_grouping; repeat split;
             try (vm_compute; reflexivity); vm_compute; discriminate |]);
    apply Forall_nil; exact I.
Qed.

(** C6.  At a length threshold that lets the three-letter name match at
    all, that is at most 3, the names "Alo", "ALO Restaurant" and "Alobar"
    resolve, in the order given and in every other order of arrival, to two
    identities: "Alo" and "ALO Restaurant" are one, "Alobar" is another.
    "alobar" is not a substring match of either of the other two normalized
    forms, nor they of it. *)
Theorem example_names_resolve_as_expected
    (threshold : nat) (ms : list Mention) :
  (threshold <= 3)%nat ->
  Permutation example_names ms ->
  expected_grouping (resolve threshold ms) /\
  expected_example_grouping threshold /\
  resolve threshold example_names
  = [("alo", [mention_of "Alo"; mention_of "ALO Restaurant"]);
     ("alobar", [mention_of "Alobar"])] /\
  same_identity threshold "Alo" "ALO Restaurant" = true /\
  same_identity threshold "Alobar" "Alo" = false /\
  same_identity threshold "Alobar" "ALO Restaurant" = false /\
  substring_of (normalize "Alo") (normalize "ALO Restaurant") = true /\
  substring_of (normalize "Alo") (normalize "Alobar") = false /\
  substring_of (normalize "Alobar") (normalize "Alo") = false /\
  substring_of (normalize "ALO Restaurant") (normalize "Alobar") = false /\
  substring_of (normalize "Alobar") (normalize "ALO Restaurant") = false.
Proof.
  intros Ht Hp.
  pose proof (example_orders_expected threshold Ht) as Hall.
  rewrite Forall_forall in Hall.
  split; [apply Hall, list_elem_of_In, example_orders_complete, Hp |].
  split; [apply Hall, list_elem_of_In, example_orders_complete;
          apply Permutation_refl |].
  destruct threshold as [|[|[|[|t]]]]; [| | | | lia];
    repeat split; vm_compute; reflexivity.
Qed.

Lemma example_names_resolve_as_expected_witness :
  (3 <= 3)%nat /\
  Permutation example_names
    [mention_of "Alobar"; mention_of "ALO Restaurant"; mention_of "Alo"] /\
  expected_grouping
    (resolve 3
       [mention_of "Alobar"; mention_of "ALO Restaurant"; mention_of "Alo"]).
Proof.
  assert (Ht : (3 <= 3)%nat) by lia.
  assert (Hp : Permutation example_names
                 [mention_of "Alobar"; mention_of "ALO Restaurant";
                  mention_of "Alo"]).
  { unfold example_names.
    eapply perm_trans; [apply perm_swap |].
    eapply perm_trans; [apply perm_skip, perm_swap |].
    eapply perm_trans; [apply perm_swap |].
    apply Permutation_refl. }
  split; [exact Ht |]. split; [exact Hp |].
  exact (proj1 (example_names_resolve_as_expected 3 _ Ht Hp)).
Defined.

End ExampleNames.
